(** * pqm4 device sessions: [interface.py]

    A shallow embedding of the two framed-session readers of
    [interface.py], [SerialCommsPlatform.run] (bytes over a pyserial
    handle) and [ChipWhisperer.run] (text polled from a scope target),
    together with the flashers they call, and the properties of the
    captured transcript that follow from the code. *)

From Stdlib Require Import List Bool Arith NArith ZArith Lia.
From Stdlib Require Import Strings.String Strings.Ascii Strings.Byte.
Import ListNotations.

Set Implicit Arguments.

(** ** Results of a call *)

(** The exceptions the module can let escape: [subprocess.check_call]
    raises [CalledProcessError] with the tool's exit status, the readers
    raise a bare [Exception] with a message, and a programmer step of the
    scope library raises whatever it raises ([IOError] here). *)
Inductive exn : Type :=
| CalledProcessError (returncode : Z)
| Exception (msg : string)
| IOError (msg : string).

(** A call returns, raises, or is still looping when the fuel given to
    its [while] loops is used up. *)
Inductive outcome (T : Type) : Type :=
| Returned (t : T)
| Raised (e : exn)
| OutOfFuel.

Arguments Returned {T} t.
Arguments Raised {T} e.
Arguments OutOfFuel {T}.

(** The call ends the same way whatever fuel its loops get. *)
Definition always {T : Type} (f : nat -> outcome T) (o : outcome T) : Prop :=
  forall fuel, f fuel = o.

(** A call that is still looping whatever fuel it gets. *)
Definition never_finishes {T : Type} (f : nat -> outcome T) : Prop :=
  always f OutOfFuel.

(** ** The two patterns, and [re]'s backtracking matcher on them *)

Module Re.
Section Matcher.

Variable A : Type.
Variable eqb : A -> A -> bool.

(** A character class: [.] under [re.DOTALL], or a literal. *)
Inductive cls : Type :=
| Dot
| Lit (a : A).

(** A quantified class: [c{it_min}] or, when [it_open], the greedy
    [c{it_min,}]. *)
Record item : Type := Item { it_cls : cls; it_min : nat; it_open : bool }.

Definition pattern : Type := list item.

Definition accepts (c : cls) (a : A) : bool :=
  match c with
  | Dot => true
  | Lit l => eqb a l
  end.

(** How many leading elements of [s] the class accepts. *)
Fixpoint span (c : cls) (s : list A) : nat :=
  match s with
  | [] => 0
  | a :: s' => if accepts c a then S (span c s') else 0
  end.

(** A greedy quantifier tries [lo + n] repetitions first and gives one
    back at a time down to [lo]. *)
Fixpoint backtrack (k : nat -> option nat) (lo n : nat) : option nat :=
  match n with
  | 0 => k lo
  | S n' =>
      match k (lo + S n') with
      | Some e => Some e
      | None => backtrack k lo n'
      end
  end.

(** [match_here full p s]: the number of elements of [s] the first
    successful path of the matcher consumes, from the start of [s];
    with [full] the path has to end where [s] ends. *)
Fixpoint match_here (full : bool) (p : pattern) (s : list A) : option nat :=
  match p with
  | [] =>
      if full then match s with [] => Some 0 | _ :: _ => None end
      else Some 0
  | it :: p' =>
      let avail := span (it_cls it) s in
      let k := fun j => option_map (Nat.add j) (match_here full p' (skipn j s)) in
      if avail <? it_min it then None
      else if it_open it then backtrack k (it_min it) (avail - it_min it)
      else k (it_min it)
  end.

(** [pat.match(s)], as [match.end()] when there is a match. *)
Definition re_match (p : pattern) (s : list A) : option nat :=
  match_here false p s.

(** [pat.fullmatch(s) is not None]. *)
Definition re_fullmatch (p : pattern) (s : list A) : bool :=
  match match_here true p s with
  | Some _ => true
  | None => false
  end.

End Matcher.

Arguments Dot {A}.
Arguments Lit {A} a.

End Re.

(** ** Bytes and text *)

Definition bytes : Type := list byte.

(** A Python [str]: its code points. *)
Definition codepoint : Type := N.
Definition str : Type := list codepoint.

Definition EQ : byte := "="%byte.
Definition HASH : byte := "#"%byte.
Definition LF : byte := x0a.

(** [a == b] on [bytes]. *)
Fixpoint bytes_eqb (a b : bytes) : bool :=
  match a, b with
  | [], [] => true
  | x :: a', y :: b' => Byte.eqb x y && bytes_eqb a' b'
  | _, _ => false
  end.

(** The text of an ASCII literal. *)
Definition text (s : string) : str := map Byte.to_N (list_byte_of_string s).

(** *** [bytes.decode('utf-8', 'ignore')]

    The decoder of CPython ([utf8_decode] in [stringlib/codecs.h] with
    the error positions [unicode_decode_utf8] gives the handler), under
    the [ignore] handler: the bytes of an error are skipped and decoding
    resumes behind them. *)

Definition is_continuation (ch : N) : bool :=
  ((0x80 <=? ch) && (ch <? 0xC0))%N.

Fixpoint utf8_decode_ignore (s : bytes) : str :=
  match s with
  | [] => []
  | b0 :: t0 =>
      let ch := Byte.to_N b0 in
      if (ch <? 0x80)%N then ch :: utf8_decode_ignore t0
      else if (ch <? 0xC2)%N then
        (* invalid start byte: a continuation byte, or 0xC0, 0xC1 *)
        utf8_decode_ignore t0
      else if (ch <? 0xE0)%N then
        match t0 with
        | [] => [] (* unexpected end of data *)
        | b1 :: t1 =>
            let ch2 := Byte.to_N b1 in
            if is_continuation ch2
            then (ch * 64 + ch2 - (0xC0 * 64 + 0x80))%N :: utf8_decode_ignore t1
            else utf8_decode_ignore t0
        end
      else if (ch <? 0xF0)%N then
        match t0 with
        | [] => []
        | b1 :: t1 =>
            let ch2 := Byte.to_N b1 in
            if negb (is_continuation ch2)
               || (if (ch2 <? 0xA0)%N then (ch =? 0xE0)%N else (ch =? 0xED)%N)
            then utf8_decode_ignore t0
            else
              match t1 with
              | [] => []
              | b2 :: t2 =>
                  let ch3 := Byte.to_N b2 in
                  if is_continuation ch3
                  then (ch * 4096 + ch2 * 64 + ch3
                        - (0xE0 * 4096 + 0x80 * 64 + 0x80))%N
                         :: utf8_decode_ignore t2
                  else utf8_decode_ignore t1
              end
        end
      else if (ch <? 0xF5)%N then
        match t0 with
        | [] => []
        | b1 :: t1 =>
            let ch2 := Byte.to_N b1 in
            if negb (is_continuation ch2)
               || (if (ch2 <? 0x90)%N then (ch =? 0xF0)%N else (ch =? 0xF4)%N)
            then utf8_decode_ignore t0
            else
              match t1 with
              | [] => []
              | b2 :: t2 =>
                  let ch3 := Byte.to_N b2 in
                  if negb (is_continuation ch3) then utf8_decode_ignore t1
                  else
                    match t2 with
                    | [] => []
                    | b3 :: t3 =>
                        let ch4 := Byte.to_N b3 in
                        if is_continuation ch4
                        then (ch * 262144 + ch2 * 4096 + ch3 * 64 + ch4
                              - (0xF0 * 262144 + 0x80 * 4096 + 0x80 * 64 + 0x80))%N
                               :: utf8_decode_ignore t3
                        else utf8_decode_ignore t2
                    end
              end
        end
      else
        (* invalid start byte: 0xF5 .. 0xFF *)
        utf8_decode_ignore t0
  end.

(** U+FFFD, what the [replace] handler would put for an error. *)
Definition REPLACEMENT_CHARACTER : codepoint := 0xFFFD%N.

(** ** The serial handle

    A [serial.Serial] opened with a timeout, as the reader sees it:
    [in_waiting] holds the bytes already in the input buffer, [incoming]
    what the next [read(1)] calls will meet on the line, [Some b] for a
    byte that arrives within the timeout and [None] for a timeout that
    expires first; when [incoming] is used up nothing arrives any more
    and every read times out. [calls] records the methods called on the
    handle, latest last. *)

Inductive call : Type :=
| ResetInputBuffer
| ReadUntil (expected : byte).

Record Serial : Type := MkSerial {
  in_waiting : bytes;
  incoming : list (option byte);
  calls : list call
}.

(** [Serial.reset_input_buffer()]: the buffered bytes are discarded. *)
Definition reset_input_buffer (dev : Serial) : Serial :=
  MkSerial [] (incoming dev) (calls dev ++ [ResetInputBuffer]).

(** [Serial.read_until(expected)] of pyserial for a one-byte [expected]
    and no [size]: its loop calls [read(1)], appends the byte to the line
    and returns when the line ends in [expected]; it returns what it has
    when [read(1)] comes back empty or when the timeout of the handle has
    run out behind a byte, which is a [None] between two bytes here.
    [read_buffered] takes the bytes from the input buffer first,
    [read_line] the ones that are still to arrive. *)
Fixpoint read_line (expected : byte) (line : list (option byte))
  : bytes * list (option byte) :=
  match line with
  | [] => ([], [])
  | None :: line' => ([], line')
  | Some c :: line' =>
      if Byte.eqb c expected then ([c], line')
      else let (got, rest) := read_line expected line' in (c :: got, rest)
  end.

Fixpoint read_buffered (expected : byte) (buf : bytes) (line : list (option byte))
  : bytes * (bytes * list (option byte)) :=
  match buf with
  | [] => let (got, rest) := read_line expected line in (got, ([], rest))
  | c :: buf' =>
      if Byte.eqb c expected then ([c], (buf', line))
      else
        let (got, rest) := read_buffered expected buf' line in (c :: got, rest)
  end.

Definition read_until (expected : byte) (dev : Serial) : bytes * Serial :=
  let (got, rest) := read_buffered expected (in_waiting dev) (incoming dev) in
  (got, MkSerial (fst rest) (snd rest) (calls dev ++ [ReadUntil expected])).

(** ** Flashers run as external tools *)

(** [subprocess.check_call(args)], given the exit status of the tool. *)
Definition check_call (exit_status : Z) : option exn :=
  if (exit_status =? 0)%Z then None else Some (CalledProcessError exit_status).

Module StLink.
Definition flash (st_flash_status : Z) : option exn := check_call st_flash_status.
End StLink.

Module OpenOCD.
Definition flash (openocd_status : Z) : option exn := check_call openocd_status.
End OpenOCD.

(** ** [SerialCommsPlatform] *)

Module SerialCommsPlatform.

(** [re.compile(b'.*={4,}\n', re.DOTALL)] *)
Definition start_pat : Re.pattern byte :=
  [ Re.Item Re.Dot 0 true; Re.Item (Re.Lit EQ) 4 true; Re.Item (Re.Lit LF) 1 false ].

(** [len(output) == 0 or output[-1] != b'#'[0]] *)
Definition not_done (output : bytes) : bool :=
  (List.length output =? 0) || negb (Byte.eqb (last output x00) HASH).

(** The [while] loop of [run]. *)
Fixpoint streaming (fuel : nat) (output : bytes) (dev : Serial)
  : option bytes * Serial :=
  if not_done output then
    match fuel with
    | 0 => (None, dev)
    | S fuel' =>
        let (data, dev') := read_until HASH dev in
        streaming fuel' (output ++ data) dev'
    end
  else (Some output, dev).

(** [run], given what [self.flash(binary_path)] does: [None] when it
    returns, the exception when it raises. The [while] loop may take
    [fuel] rounds; [self.log.debug] is left out. *)
Definition run (fuel : nat) (flashed : option exn) (dev : Serial)
  : outcome str * Serial :=
  match flashed with
  | Some e => (Raised e, dev)
  | None =>
      let dev := reset_input_buffer dev in
      let (first, dev) := read_until EQ dev in
      if negb (bytes_eqb first [EQ])
      then (Raised (Exception "Timout waiting for start"), dev)
      else
        let (start, dev) := read_until LF dev in
        if negb (Re.re_fullmatch Byte.eqb start_pat start)
        then (Raised (Exception "Start does not match"), dev)
        else
          match streaming fuel [] dev with
          | (None, dev) => (OutOfFuel, dev)
          | (Some output, dev) =>
              (Returned (utf8_decode_ignore (removelast output)), dev)
          end
  end.

End SerialCommsPlatform.

(** ** [ChipWhisperer] *)

(** The text a scope target hands over is a Python [str] of one-byte
    characters. *)
Definition chars : Type := list ascii.

Definition chars_of (s : string) : chars := list_ascii_of_string s.

Definition NL : ascii := "010"%char.

(** The scope target after [flush()] and [reset_target()]: what the
    [target.read()] polls to come return, one chunk each; a poll past the
    last chunk finds nothing and returns the empty string. A poll never
    raises, the target has no timeout to report. *)
Definition Target : Type := list chars.

Definition target_read (t : Target) : chars * Target :=
  match t with
  | [] => ([], [])
  | chunk :: t' => (chunk, t')
  end.

(** The calls [flash] makes on the programmer handle. *)
Inductive step : Type := Open | Find | Erase | Program | Close.

Module ChipWhisperer.

(** [re.compile('.*={4,}\n', re.DOTALL)] *)
Definition start_pat : Re.pattern ascii :=
  [ Re.Item Re.Dot 0 true; Re.Item (Re.Lit "="%char) 4 true;
    Re.Item (Re.Lit NL) 1 false ].

(** [re.compile('.*#\n', re.DOTALL)] *)
Definition end_pat : Re.pattern ascii :=
  [ Re.Item Re.Dot 0 true; Re.Item (Re.Lit "#"%char) 1 false;
    Re.Item (Re.Lit NL) 1 false ].

(** [flash], given for each programmer call whether it raises: the
    exception that escapes, if any, and the calls made, in order. *)
Definition flash (prog : step -> option exn) : option exn * list step :=
  match prog Open with
  | Some e => (Some e, [Open])
  | None =>
  match prog Find with
  | Some e => (Some e, [Open; Find])
  | None =>
  match prog Erase with
  | Some e => (Some e, [Open; Find; Erase])
  | None =>
  match prog Program with
  | Some e => (Some e, [Open; Find; Erase; Program])
  | None =>
  match prog Close with
  | Some e => (Some e, [Open; Find; Erase; Program; Close])
  | None => (None, [Open; Find; Erase; Program; Close])
  end end end end end.

(** [while '=' not in data: data += self.target.read()] *)
Fixpoint await_equal (fuel : nat) (data : chars) (t : Target)
  : option (chars * Target) :=
  if negb (existsb (Ascii.eqb "="%char) data) then
    match fuel with
    | 0 => None
    | S fuel' =>
        let (chunk, t') := target_read t in
        await_equal fuel' (data ++ chunk) t'
    end
  else Some (data, t).

(** [match = None]
    [while match is None: data += self.target.read(); match = pat.match(data)],
    with [match.end()] for the match. *)
Fixpoint await_match (pat : Re.pattern ascii) (fuel : nat) (data : chars)
  (t : Target) : option (nat * chars * Target) :=
  match fuel with
  | 0 => None
  | S fuel' =>
      let (chunk, t') := target_read t in
      let data' := data ++ chunk in
      match Re.re_match Ascii.eqb pat data' with
      | Some e => Some (e, data', t')
      | None => await_match pat fuel' data' t'
      end
  end.

(** [run], given what [self.flash(binary_path)] does; [t] is the target
    once [flush()] and [reset_target()] are through. Each of the three
    loops may take [fuel] polls. *)
Definition run (fuel : nat) (flashed : option exn) (t : Target) : outcome chars :=
  match flashed with
  | Some e => Raised e
  | None =>
      match await_equal fuel [] t with
      | None => OutOfFuel
      | Some (data, t) =>
          match await_match start_pat fuel data t with
          | None => OutOfFuel
          | Some (e, data, t) =>
              let data := firstn e data in
              match await_match end_pat fuel data t with
              | None => OutOfFuel
              | Some (e, data, _) => Returned (firstn (e - 2) data)
              end
          end
      end
  end.

End ChipWhisperer.

(** ** Lines, payloads and bytes of interest *)

(** The line as a device sends it when no read times out. *)
Definition sent (bs : bytes) : list (option byte) := map Some bs.

(** A freshly opened handle with [residue] buffered and [line] to come. *)
Definition serial (residue : bytes) (line : list (option byte)) : Serial :=
  MkSerial residue line [].

(** The start line a firmware opens its output with: [n] times [=] and
    a newline. *)
Definition start_line (n : nat) : bytes := repeat EQ n ++ [LF].

(** The bytes among the events of a line, and its timeouts. *)
Fixpoint arrived (line : list (option byte)) : bytes :=
  match line with
  | [] => []
  | Some b :: line' => b :: arrived line'
  | None :: line' => arrived line'
  end.

Fixpoint timeouts (line : list (option byte)) : nat :=
  match line with
  | [] => 0
  | Some _ :: line' => timeouts line'
  | None :: line' => S (timeouts line')
  end.

(** A byte below 0x80. *)
Definition is_ascii (b : byte) : Prop := (Byte.to_N b < 0x80)%N.

(** A byte that cannot start a sequence: a continuation byte, 0xC0,
    0xC1, or 0xF5 and above. *)
Definition invalid_start (b : byte) : Prop :=
  (0x80 <= Byte.to_N b < 0xC2)%N \/ (0xF5 <= Byte.to_N b)%N.

(** ** Settings and the choice of a platform *)

(** What [get_platform] and [M4Settings] raise themselves, and what the
    constructor of a platform may let escape. *)
Inductive config_error : Type :=
| ValueError (msg : string)
| NotImplementedError (msg : string)
| ConstructorRaised (e : exn).

Module M4Settings.

(** [optflags = {"speed": [], "size": ["OPT_SIZE=1"], "debug": ["DEBUG=1"]}],
    in insertion order. *)
Definition optflags : list (string * list string) :=
  [ ("speed", []); ("size", ["OPT_SIZE=1"]); ("debug", ["DEBUG=1"]) ]%string.

(** [optflags[opt]], [None] when [opt not in optflags]. *)
Fixpoint lookup (opt : string) (d : list (string * list string))
  : option (list string) :=
  match d with
  | [] => None
  | (key, flags) :: d' => if String.eqb opt key then Some flags else lookup opt d'
  end.

(** [f"{keys}"] for a list of plain keys: ['speed', 'size', 'debug']. *)
Definition repr_keys (keys : list string) : string :=
  ("[" ++ String.concat ", " (map (fun key => "'" ++ key ++ "'") keys) ++ "]")%string.

(** The attributes [__init__] sets on the instance. *)
Record t : Type := Make { binary_type : string; makeflags : list string }.

(** [M4Settings(platform, opt, lto, aio, binary_type)]; the initialiser
    of [mupq.PlatformSettings], called between the test of [opt] and the
    assignment of [makeflags], is not part of this file. *)
Definition init (platform opt : string) (lto aio : bool) (binary_type : string)
  : t + config_error :=
  match lookup opt optflags with
  | None =>
      inr (ValueError
             ("Optimization flag should be in " ++ repr_keys (map fst optflags))%string)
  | Some flags =>
      inl (Make binary_type
             ((["PLATFORM=" ++ platform]%string ++ flags)
                ++ (if lto then ["LTO=1"%string] else [])
                ++ (if aio then ["AIO=1"%string] else [])))
  end.

End M4Settings.

(** The keys of [optflags]. *)
Definition opt_names : list string := ["speed"; "size"; "debug"]%string.

(** The namespace [parse_arguments] hands over. *)
Record Args : Type := MkArgs {
  arg_platform : string;
  arg_opt : string;
  arg_lto : bool;
  arg_aio : bool;
  arg_uart : option string
}.

(** The platform objects [get_platform] builds: [StLink(args.uart)] and
    [ChipWhisperer()]. *)
Inductive Platform : Type :=
| StLinkOn (tty : option string)
| ChipWhispererScope.

(** What building a platform meets on the host: the exception, if any,
    that opening the serial port or setting up the scope raises. *)
Record Host : Type := MkHost {
  serial_error : option exn;
  scope_error : option exn
}.

(** [get_platform(args)]: its result, and the platforms it has built on
    the way, whether it returns them or not. *)
Definition get_platform (host : Host) (args : Args)
  : (Platform * M4Settings.t + config_error) * list Platform :=
  let settings (platform : Platform) (bin_type : string) :=
    match M4Settings.init (arg_platform args) (arg_opt args) (arg_lto args)
            (arg_aio args) bin_type with
    | inl s => (inl (platform, s), [platform])
    | inr e => (inr e, [platform])
    end in
  if existsb (String.eqb (arg_platform args))
       ["stm32f4discovery"; "nucleo-l476rg"]%string
  then
    match serial_error host with
    | Some e => (inr (ConstructorRaised e), [])
    | None => settings (StLinkOn (arg_uart args)) "bin"%string
    end
  else if String.eqb (arg_platform args) "cw308t-stm32f3"
  then
    match scope_error host with
    | Some e => (inr (ConstructorRaised e), [])
    | None => settings ChipWhispererScope "hex"%string
    end
  else (inr (NotImplementedError "Unsupported Platform"), []).

(** ** [Qemu] *)

(** What the platform does to processes of the host, in order. *)
Inductive os_call : Type :=
| Popen (pid : nat) (args : list string)
| StdoutClose (pid : nat)
| Terminate (pid : nat)
| Kill (pid : nat).

(** The host as [Qemu] meets it: the id the next process gets, what the
    [subprocess.Popen] calls to come raise ([None], and nothing once the
    list is used up, for a process that starts), and the calls made. *)
Record OS : Type := MkOS {
  next_pid : nat;
  popen_errors : list (option exn);
  os_calls : list os_call
}.

(** [subprocess.Popen(args, ...)]. *)
Definition popen (args : list string) (os : OS) : (nat + exn) * OS :=
  match popen_errors os with
  | Some e :: errors => (inr e, MkOS (next_pid os) errors (os_calls os))
  | None :: errors =>
      (inl (next_pid os),
       MkOS (S (next_pid os)) errors (os_calls os ++ [Popen (next_pid os) args]))
  | [] =>
      (inl (next_pid os),
       MkOS (S (next_pid os)) [] (os_calls os ++ [Popen (next_pid os) args]))
  end.

Module Qemu.

(** The instance: its machine and [self.wrapper], the process wrapped
    or [None]. *)
Record t : Type := Make { machine : string; wrapper : option nat }.

(** [Qemu(machine)] *)
Definition init (machine : string) : t := Make machine None.

(** [Wrapper.terminate]: [stdout.close()], [terminate()], [kill()]. *)
Definition terminate (pid : nat) (os : OS) : OS :=
  MkOS (next_pid os) (popen_errors os)
    (os_calls os ++ [StdoutClose pid; Terminate pid; Kill pid]).

(** [if self.wrapper is not None: self.wrapper.terminate(); self.wrapper = None] *)
Definition drop_wrapper (q : t) (os : OS) : t * OS :=
  match wrapper q with
  | Some pid => (Make (machine q) None, terminate pid os)
  | None => (q, os)
  end.

(** [__exit__], up to the call of the base class. *)
Definition exit (q : t) (os : OS) : t * OS := drop_wrapper q os.

(** [device()] *)
Definition device (q : t) : nat + exn :=
  match wrapper q with
  | None => inr (Exception "No process started yet")
  | Some pid => inl pid
  end.

(** The command line of [flash]. *)
Definition command (q : t) (binary_path : string) : list string :=
  [ "qemu-system-arm"; "-cpu"; "cortex-m4"; "-M"; machine q; "-nographic";
    "-kernel"; binary_path ]%string.

(** [flash(binary_path)], given what [super().flash(binary_path)] does:
    the exception that escapes, if any, the instance and the host. *)
Definition flash (base : option exn) (binary_path : string) (q : t) (os : OS)
  : option exn * t * OS :=
  match base with
  | Some e => (Some e, q, os)
  | None =>
      let (q, os) := drop_wrapper q os in
      match popen (command q binary_path) os with
      | (inr e, os) => (Some e, q, os)
      | (inl pid, os) => (None, Make (machine q) (Some pid), os)
      end
  end.

(** What a user does with the platform, one call after the other. *)
Inductive op : Type :=
| Flash (base : option exn) (binary_path : string)
| Exit
| Device.

Definition step (o : op) (st : t * OS) : t * OS :=
  match o with
  | Flash base binary_path =>
      let '(_, q, os) := flash base binary_path (fst st) (snd st) in (q, os)
  | Exit => exit (fst st) (snd st)
  | Device => st
  end.

Definition steps (ops : list op) (st : t * OS) : t * OS :=
  fold_left (fun st o => step o st) ops st.

End Qemu.

(** The processes started and not killed since, oldest first. *)
Fixpoint alive (calls : list os_call) (running : list nat) : list nat :=
  match calls with
  | [] => running
  | Popen pid _ :: calls' => alive calls' (running ++ [pid])
  | Kill pid :: calls' => alive calls' (filter (fun p => negb (p =? pid)) running)
  | _ :: calls' => alive calls' running
  end.

(** The platform names [get_platform] knows. *)
Definition platform_names : list string :=
  ["stm32f4discovery"; "nucleo-l476rg"; "cw308t-stm32f3"]%string.

(** The processes of a log that [Qemu] still holds: the wrapped one. *)
Definition wrapped (q : Qemu.t) : list nat :=
  match Qemu.wrapper q with
  | Some pid => [pid]
  | None => []
  end.

(** The stop marker of the scope reader, and a text that holds none. *)
Definition hash_nl : chars := ["#"%char; NL].

Definition hash_nl_free (s : chars) : Prop :=
  forall a b, s <> a ++ hash_nl ++ b.

(** * Proofs *)

Import SerialCommsPlatform.

(** Boolean tests in the context, as propositions. *)
Ltac bool_facts :=
  repeat match goal with
    | H : is_continuation _ = _ |- _ => unfold is_continuation in H
    | H : (if ?b then _ else _) = _ |- _ => destruct b eqn:?
    | H : (_ && _)%bool = true |- _ => apply andb_true_iff in H; destruct H
    | H : (_ || _)%bool = false |- _ => apply orb_false_iff in H; destruct H
    | H : (_ && _)%bool = false |- _ => apply andb_false_iff in H; destruct H
    | H : negb _ = false |- _ => apply negb_false_iff in H
    | H : negb _ = true |- _ => apply negb_true_iff in H
    | H : (_ <? _)%N = true |- _ => apply N.ltb_lt in H
    | H : (_ <? _)%N = false |- _ => apply N.ltb_ge in H
    | H : (_ <=? _)%N = true |- _ => apply N.leb_le in H
    | H : (_ <=? _)%N = false |- _ => apply N.leb_gt in H
    | H : (_ =? _)%N = true |- _ => apply N.eqb_eq in H
    | H : (_ =? _)%N = false |- _ => apply N.eqb_neq in H
    end.

(** ** Worked runs *)

Example scenario_stream :
  SerialCommsPlatform.run 1 (StLink.flash 0)
    (serial [] (sent (list_byte_of_string "==========" ++ [LF]
                      ++ list_byte_of_string "bench: 1234 cycles" ++ [LF; HASH])))
  = (Returned (text "bench: 1234 cycles" ++ [10%N]),
     MkSerial [] [] [ResetInputBuffer; ReadUntil EQ; ReadUntil LF; ReadUntil HASH]).
Proof. vm_compute. reflexivity. Qed.

Example scenario_chipwhisperer :
  ChipWhisperer.run 2 None
    [chars_of "boot=="; chars_of "==" ++ [NL]; chars_of "ok" ++ [NL] ++ chars_of "#" ++ [NL]]
  = Returned (chars_of "boot====" ++ [NL] ++ chars_of "ok" ++ [NL]).
Proof. vm_compute. reflexivity. Qed.

(** ** The matcher's quantifier *)

Section Backtrack.

Variable k : nat -> option nat.

(** The highest count is tried first. *)
Lemma backtrack_top (lo n e : nat) :
  k (lo + n) = Some e -> Re.backtrack k lo n = Some e.
Proof.
  destruct n as [|n]; simpl; intros H.
  - now rewrite Nat.add_0_r in H.
  - now rewrite H.
Qed.

Lemma backtrack_none (lo n : nat) :
  (forall j, lo <= j <= lo + n -> k j = None) -> Re.backtrack k lo n = None.
Proof.
  induction n as [|n IH]; simpl; intros H.
  - apply H; lia.
  - rewrite (H (lo + S n)) by lia. apply IH. intros j Hj. apply H; lia.
Qed.

Lemma backtrack_found (lo n j : nat) :
  lo <= j <= lo + n -> k j <> None -> Re.backtrack k lo n <> None.
Proof.
  induction n as [|n IH]; simpl; intros Hj Hk.
  - now replace lo with j by lia.
  - destruct (k (lo + S n)) eqn:E; [discriminate|].
    apply IH; [|exact Hk].
    destruct (Nat.eq_dec j (lo + S n)) as [->|]; [congruence|lia].
Qed.

End Backtrack.

(** ** Lists of bytes *)

Lemma byte_eqb_refl (b : byte) : Byte.eqb b b = true.
Proof. now apply Byte.byte_dec_lb. Qed.

Lemma byte_eqb_neq (a b : byte) : a <> b -> Byte.eqb a b = false.
Proof.
  intros H. destruct (Byte.eqb a b) eqn:E; [|reflexivity].
  now apply Byte.byte_dec_bl in E.
Qed.

Lemma byte_eqb_true (a b : byte) : Byte.eqb a b = true -> a = b.
Proof. apply Byte.byte_dec_bl. Qed.

Lemma span_dot (A : Type) (eqb : A -> A -> bool) (s : list A) :
  Re.span eqb Re.Dot s = List.length s.
Proof. induction s; simpl; congruence. Qed.

Lemma span_repeat (c : byte) (n : nat) (s : bytes) :
  Re.span Byte.eqb (Re.Lit c) (repeat c n ++ s)
  = n + Re.span Byte.eqb (Re.Lit c) s.
Proof.
  induction n as [|n IH]; simpl; [reflexivity|].
  now rewrite byte_eqb_refl, IH.
Qed.

Lemma skipn_repeat_app (c : byte) (n : nat) (s : bytes) :
  skipn n (repeat c n ++ s) = s.
Proof. induction n; simpl; auto. Qed.

(** The matcher's two equations. *)
Lemma match_here_nil (A : Type) (eqb : A -> A -> bool) (full : bool) (s : list A) :
  Re.match_here eqb full [] s
  = if full then match s with [] => Some 0 | _ :: _ => None end else Some 0.
Proof. reflexivity. Qed.

Lemma match_here_cons (A : Type) (eqb : A -> A -> bool) (full : bool)
  (it : Re.item A) (p : Re.pattern A) (s : list A) :
  Re.match_here eqb full (it :: p) s
  = if Re.span eqb (Re.it_cls it) s <? Re.it_min it then None
    else if Re.it_open it
         then Re.backtrack
                (fun j => option_map (Nat.add j) (Re.match_here eqb full p (skipn j s)))
                (Re.it_min it) (Re.span eqb (Re.it_cls it) s - Re.it_min it)
         else option_map (Nat.add (Re.it_min it))
                (Re.match_here eqb full p (skipn (Re.it_min it) s)).
Proof. reflexivity. Qed.

(** *** The start pattern of the byte reader *)

(** A run of at least four [=] with the newline behind it is matched
    whole by [={4,}\n]. *)
Lemma start_run_matches (n : nat) :
  4 <= n ->
  Re.match_here Byte.eqb true
    [Re.Item (Re.Lit EQ) 4 true; Re.Item (Re.Lit LF) 1 false]
    (repeat EQ n ++ [LF]) = Some (n + 1).
Proof.
  intros Hn. rewrite match_here_cons. cbn [Re.it_cls Re.it_min Re.it_open].
  rewrite span_repeat. cbn [Re.span Re.accepts].
  replace (Byte.eqb LF EQ) with false by reflexivity. rewrite Nat.add_0_r.
  destruct (Nat.ltb_spec n 4) as [?|_]; [lia|].
  apply backtrack_top.
  replace (4 + (n - 4)) with n by lia.
  rewrite skipn_repeat_app. reflexivity.
Qed.

(** A run of at least four [=] and the newline behind it match the
    pattern, whatever precedes the run. *)
Lemma start_pat_accepts (junk : bytes) (n : nat) :
  4 <= n ->
  Re.re_fullmatch Byte.eqb SerialCommsPlatform.start_pat
    (junk ++ repeat EQ n ++ [LF]) = true.
Proof.
  intros Hn. unfold Re.re_fullmatch, SerialCommsPlatform.start_pat.
  match goal with |- match ?m with _ => _ end = _ => destruct m eqn:E end;
    [reflexivity|exfalso].
  revert E. rewrite match_here_cons. cbn [Re.it_cls Re.it_min Re.it_open].
  rewrite span_dot. destruct (Nat.ltb_spec (List.length (junk ++ repeat EQ n ++ [LF])) 0) as [?|_]; [lia|].
  apply backtrack_found with (j := List.length junk).
  - rewrite length_app. lia.
  - rewrite skipn_app, skipn_all, Nat.sub_diag. cbn [app skipn].
    rewrite (start_run_matches Hn). discriminate.
Qed.


(** ** Reading from the line *)

Lemma arrived_sent (bs : bytes) : arrived (sent bs) = bs.
Proof. induction bs; simpl; congruence. Qed.

Lemma timeouts_sent (bs : bytes) : timeouts (sent bs) = 0.
Proof. induction bs; simpl; congruence. Qed.

Lemma sent_app (a b : bytes) : sent (a ++ b) = sent a ++ sent b.
Proof. apply map_app. Qed.

Lemma in_sent (b : byte) (bs : bytes) : In (Some b) (sent bs) <-> In b bs.
Proof.
  unfold sent. rewrite in_map_iff. split.
  - intros [x [[= ->] H]]. exact H.
  - intros H. now exists b.
Qed.

(** [read_until] returns at the first [expected]: with it when it
    arrives before any timeout... *)
Lemma read_line_found (expected : byte) (p : bytes) (rest : list (option byte)) :
  ~ In expected p ->
  read_line expected (sent p ++ Some expected :: rest) = (p ++ [expected], rest).
Proof.
  induction p as [|c p IH]; simpl; intros H.
  - now rewrite byte_eqb_refl.
  - rewrite byte_eqb_neq by (intros ->; apply H; now left).
    rewrite IH by (intros ?; apply H; now right). reflexivity.
Qed.

(** ... with what arrived before the timeout otherwise. *)
Lemma read_line_timeout (expected : byte) (p : bytes) (rest : list (option byte)) :
  ~ In expected p ->
  read_line expected (sent p ++ None :: rest) = (p, rest).
Proof.
  induction p as [|c p IH]; simpl; intros H; [reflexivity|].
  rewrite byte_eqb_neq by (intros ->; apply H; now left).
  rewrite IH by (intros ?; apply H; now right). reflexivity.
Qed.

Lemma read_line_starved (expected : byte) (p : bytes) :
  ~ In expected p -> read_line expected (sent p) = (p, []).
Proof.
  induction p as [|c p IH]; simpl; intros H; [reflexivity|].
  rewrite byte_eqb_neq by (intros ->; apply H; now left).
  rewrite IH by (intros ?; apply H; now right). reflexivity.
Qed.

(** Whatever the line, the bytes returned hold [expected] at most as
    their last byte, and nothing of the line is lost or reordered. *)
Lemma read_line_shape (expected : byte) (line : list (option byte)) :
  ~ In expected (removelast (fst (read_line expected line))).
Proof.
  induction line as [|[c|] line IH]; simpl; auto.
  destruct (Byte.eqb c expected) eqn:E; simpl; auto.
  destruct (read_line expected line) as [got rest] eqn:R. simpl in *.
  destruct got as [|g got]; simpl; auto.
  intros [->|H]; [|now apply IH].
  now rewrite byte_eqb_refl in E.
Qed.

Lemma read_buffered_shape (expected : byte) (buf : bytes) (line : list (option byte)) :
  ~ In expected (removelast (fst (read_buffered expected buf line))).
Proof.
  induction buf as [|c buf IH]; simpl.
  - pose proof (read_line_shape expected line) as H.
    destruct (read_line expected line); exact H.
  - destruct (Byte.eqb c expected) eqn:E; simpl; auto.
    destruct (read_buffered expected buf line) as [got rest] eqn:R. simpl in *.
    destruct got as [|g got]; simpl; auto.
    intros [->|H]; [|now apply IH].
    now rewrite byte_eqb_refl in E.
Qed.

(** When [expected] never arrives, it is not among the bytes returned
    and still will not arrive. *)
Lemma read_line_absent (expected : byte) (line : list (option byte)) :
  ~ In (Some expected) line ->
  ~ In expected (fst (read_line expected line))
  /\ ~ In (Some expected) (snd (read_line expected line)).
Proof.
  induction line as [|[c|] line IH]; simpl; intros H; auto.
  - destruct (Byte.eqb c expected) eqn:E.
    + apply byte_eqb_true in E. subst. exfalso. apply H. now left.
    + destruct (read_line expected line) as [got rest] eqn:R. simpl in *.
      destruct IH as [IH1 IH2]; [tauto|]. split; [|exact IH2].
      intros [->|G]; [|tauto]. now rewrite byte_eqb_refl in E.
Qed.

(** After [reset_input_buffer] a read sees the line only. *)
Lemma read_until_line (expected : byte) (line : list (option byte)) (cs : list call) :
  read_until expected (MkSerial [] line cs)
  = (fst (read_line expected line),
     MkSerial [] (snd (read_line expected line)) (cs ++ [ReadUntil expected])).
Proof.
  unfold read_until. simpl. now destruct (read_line expected line).
Qed.

(** ** The streaming loop *)

Lemma not_done_app (out p : bytes) :
  not_done out = true -> ~ In HASH p -> not_done (out ++ p) = true.
Proof.
  intros Ho Hp. destruct p as [|c p]; [now rewrite app_nil_r|].
  destruct (@exists_last _ (c :: p)) as (p' & a & E); [discriminate|].
  rewrite E in *. unfold not_done. apply orb_true_iff. right.
  rewrite app_assoc, last_last.
  apply negb_true_iff, byte_eqb_neq. intros ->.
  apply Hp, in_or_app. right. now left.
Qed.

Lemma not_done_hash (out : bytes) : not_done (out ++ [HASH]) = false.
Proof.
  unfold not_done. rewrite last_last, length_app. simpl.
  replace (List.length out + 1 =? 0) with false
    by (symmetry; apply Nat.eqb_neq; lia).
  reflexivity.
Qed.

Lemma streaming_done (fuel : nat) (out : bytes) (dev : Serial) :
  not_done out = false -> streaming fuel out dev = (Some out, dev).
Proof. intros H. destruct fuel; simpl; now rewrite H. Qed.

Lemma streaming_step (fuel : nat) (out : bytes) (dev : Serial) :
  not_done out = true ->
  streaming (S fuel) out dev
  = streaming fuel (out ++ fst (read_until HASH dev)) (snd (read_until HASH dev)).
Proof.
  intros H. simpl. rewrite H. now destruct (read_until HASH dev).
Qed.

(** A line is either free of timeouts or splits at its first one. *)
Lemma line_split (line : list (option byte)) :
  (timeouts line = 0 /\ line = sent (arrived line))
  \/ exists p line',
       line = sent p ++ None :: line'
       /\ arrived line = p ++ arrived line'
       /\ timeouts line = S (timeouts line').
Proof.
  induction line as [|[c|] line IH]; simpl.
  - now left.
  - destruct IH as [[H0 H1]|(p & line' & H1 & H2 & H3)].
    + left. split; [exact H0|]. now rewrite <- H1.
    + right. exists (c :: p), line'. simpl. now rewrite <- H1, H2.
  - right. now exists [], line.
Qed.

(** The loop gathers what arrives up to the first [#], one [read_until]
    for each timeout on the way and one more. *)
Lemma streaming_collects (n : nat) :
  forall (line rest : list (option byte)) (out : bytes) (cs : list call) (fuel : nat),
    timeouts line = n ->
    not_done out = true ->
    ~ In (Some HASH) line ->
    n < fuel ->
    streaming fuel out (MkSerial [] (line ++ Some HASH :: rest) cs)
    = (Some (out ++ arrived line ++ [HASH]),
       MkSerial [] rest (cs ++ repeat (ReadUntil HASH) (S n))).
Proof.
  induction n as [|n IH]; intros line rest out cs fuel Hn Ho Hl Hf;
    (destruct fuel as [|fuel]; [lia|]);
    rewrite streaming_step, read_until_line by exact Ho;
    destruct (line_split line) as [[H0 H1]|(p & line' & H1 & H2 & H3)];
    try lia.
  - set (p := arrived line) in *. clearbody p. subst line.
    assert (Hp : ~ In HASH p) by (intros H; apply Hl; now apply in_sent).
    rewrite read_line_found by exact Hp. simpl fst; simpl snd.
    rewrite streaming_done; [reflexivity|].
    rewrite app_assoc. apply not_done_hash.
  - rewrite H2. clear H2. subst line.
    assert (Hp : ~ In HASH p).
    { intros H. apply Hl, in_or_app. left. now apply in_sent. }
    rewrite <- app_assoc. simpl app.
    rewrite read_line_timeout by exact Hp. simpl fst; simpl snd.
    rewrite (IH line' rest (out ++ p) (cs ++ [ReadUntil HASH]) fuel).
    + rewrite <- !app_assoc. reflexivity.
    + lia.
    + now apply not_done_app.
    + intros H. apply Hl, in_or_app. right. now right.
    + lia.
Qed.

(** When no [#] ever arrives the loop does not end. *)
Lemma streaming_starved (fuel : nat) :
  forall (line : list (option byte)) (out : bytes) (cs : list call),
    not_done out = true ->
    ~ In (Some HASH) line ->
    fst (streaming fuel out (MkSerial [] line cs)) = None.
Proof.
  induction fuel as [|fuel IH]; intros line out cs Ho Hl.
  - simpl. now rewrite Ho.
  - rewrite streaming_step, read_until_line by exact Ho. simpl fst; simpl snd.
    destruct (@read_line_absent HASH line Hl) as [H1 H2].
    apply IH; [now apply not_done_app|exact H2].
Qed.

(** The buffer the loop ends with holds [#] as its last byte only. *)
Lemma streaming_shape (fuel : nat) :
  forall (out out' : bytes) (dev dev' : Serial),
    ~ In HASH (removelast out) ->
    streaming fuel out dev = (Some out', dev') ->
    ~ In HASH (removelast out').
Proof.
  induction fuel as [|fuel IH]; intros out out' dev dev' Ho Hs.
  - simpl in Hs. destruct (not_done out); [discriminate|].
    now injection Hs as <- _.
  - destruct (not_done out) eqn:E.
    + rewrite streaming_step in Hs by exact E.
      apply IH in Hs; [exact Hs|].
      pose proof (read_buffered_shape HASH (in_waiting dev) (incoming dev)) as Hd.
      unfold read_until.
      destruct (read_buffered HASH (in_waiting dev) (incoming dev)) as [data st].
      simpl in *.
      destruct data as [|d data]; [now rewrite app_nil_r|].
      rewrite removelast_app by discriminate.
      intros H. apply in_app_or in H. destruct H as [H|H]; [|now apply Hd].
      (* [out] itself is free of [#]: its last byte is not one *)
      revert E H Ho. clear. unfold not_done.
      destruct out as [|o out] using rev_ind; [now intros|].
      rewrite last_last, removelast_last, length_app. simpl.
      replace (List.length out + 1 =? 0) with false
        by (symmetry; apply Nat.eqb_neq; lia).
      simpl. intros E H Ho. apply in_app_or in H. destruct H as [H|[->|[]]]; [tauto|].
      now rewrite byte_eqb_refl in E.
    + rewrite streaming_done in Hs by exact E. now injection Hs as <- _.
Qed.

(** ** The decoder *)

(** Every code point decoded is a byte below 0x80 of the input, taken
    as it is, or lies at 0x80 or above. *)
Lemma decode_sources (n : nat) :
  forall (s : bytes) (c : codepoint),
    List.length s <= n ->
    In c (utf8_decode_ignore s) ->
    (0x80 <= c)%N \/ exists b, In b s /\ Byte.to_N b = c.
Proof.
  induction n as [|n IH]; intros s c Hlen; destruct s as [|b0 t0];
    try (simpl; tauto); [simpl in Hlen; lia|].
  cbn [utf8_decode_ignore].
  repeat (match goal with
          | |- context [if ?b then _ else _] => destruct b eqn:?
          | |- context [match ?l with [] => _ | _ :: _ => _ end] =>
              is_var l; destruct l
          end; cbv beta iota zeta);
    cbn [In]; intros Hin;
    try contradiction;
    try (destruct Hin as [Hin|Hin];
         [ subst c; bool_facts;
           first [ left; lia
                 | right; exists b0; split; [now left|reflexivity] ] | ]);
    (apply IH in Hin; [|simpl in Hlen |- *; lia]);
    (destruct Hin as [Hin|(x & Hx & Hc)]; [now left|]);
    right; exists x; (split; [simpl; tauto|exact Hc]).
Qed.

Lemma to_N_inj (a b : byte) : Byte.to_N a = Byte.to_N b -> a = b.
Proof.
  intros H. pose proof (Byte.of_to_N a) as Ha. rewrite H, Byte.of_to_N in Ha.
  now injection Ha.
Qed.

(** No [#] among the bytes, no [#] in the text. *)
Lemma decode_no_hash (s : bytes) :
  ~ In HASH s -> ~ In (Byte.to_N HASH) (utf8_decode_ignore s).
Proof.
  intros Hs Hin.
  destruct (@decode_sources (List.length s) s _ (le_n _) Hin) as [H|(b & Hb & Hc)].
  - vm_compute in H. now apply H.
  - apply to_N_inj in Hc. now subst.
Qed.

(** ASCII decodes byte for byte. *)
Lemma decode_ascii_app (a s : bytes) :
  Forall is_ascii a ->
  utf8_decode_ignore (a ++ s) = map Byte.to_N a ++ utf8_decode_ignore s.
Proof.
  induction 1 as [|b a Hb _ IH]; [reflexivity|].
  cbn [app map utf8_decode_ignore].
  apply N.ltb_lt in Hb. now rewrite Hb, IH.
Qed.

Lemma decode_ascii (a : bytes) :
  Forall is_ascii a -> utf8_decode_ignore a = map Byte.to_N a.
Proof.
  intros H. rewrite <- (app_nil_r a) at 1.
  rewrite decode_ascii_app by exact H. apply app_nil_r.
Qed.

Lemma decode_invalid_start (b : byte) (s : bytes) :
  invalid_start b -> utf8_decode_ignore (b :: s) = utf8_decode_ignore s.
Proof.
  intros H. cbn [utf8_decode_ignore].
  destruct H as [[H1 H2]|H].
  - apply N.ltb_ge in H1. apply N.ltb_lt in H2. now rewrite H1, H2.
  - replace (Byte.to_N b <? 0x80)%N with false by (symmetry; apply N.ltb_ge; lia).
    replace (Byte.to_N b <? 0xC2)%N with false by (symmetry; apply N.ltb_ge; lia).
    replace (Byte.to_N b <? 0xE0)%N with false by (symmetry; apply N.ltb_ge; lia).
    replace (Byte.to_N b <? 0xF0)%N with false by (symmetry; apply N.ltb_ge; lia).
    replace (Byte.to_N b <? 0xF5)%N with false by (symmetry; apply N.ltb_ge; lia).
    reflexivity.
Qed.

(** ** A framed session on the serial line *)

Lemma repeat_not_in (c d : byte) (n : nat) : c <> d -> ~ In d (repeat c n).
Proof. intros H Hin. apply repeat_spec in Hin. congruence. Qed.

(** The run on a line that opens with [=], goes on to a run of at least
    four [=] and a newline, and brings a [#] later: what was buffered
    before the reset is gone, the bytes between the newline and the first
    [#] are the transcript, and the handle was read once for the [=],
    once for the start line and once more than timeouts fell in the
    payload. *)
Lemma run_framed (fuel n : nat) (residue junk : bytes)
  (payload rest : list (option byte)) (cs : list call) :
  ~ In LF junk ->
  4 <= n ->
  ~ In (Some HASH) payload ->
  timeouts payload < fuel ->
  run fuel None
    (MkSerial residue
       (Some EQ :: sent (junk ++ repeat EQ n) ++ Some LF :: payload ++ Some HASH :: rest)
       cs)
  = (Returned (utf8_decode_ignore (arrived payload)),
     MkSerial [] rest
       (cs ++ [ResetInputBuffer; ReadUntil EQ; ReadUntil LF]
           ++ repeat (ReadUntil HASH) (S (timeouts payload)))).
Proof.
  intros Hj Hn Hp Hf. unfold run, reset_input_buffer. cbn [incoming calls].
  rewrite read_until_line.
  change (Some EQ :: ?l) with (sent [] ++ Some EQ :: l).
  rewrite read_line_found by (intros []). cbn [fst snd app bytes_eqb].
  rewrite byte_eqb_refl. cbn [andb negb].
  rewrite read_until_line, read_line_found.
  2:{ intros H. apply in_app_or in H. destruct H as [H|H]; [tauto|].
      revert H. now apply repeat_not_in. }
  cbn [fst snd]. rewrite <- app_assoc, start_pat_accepts by exact Hn.
  cbn [negb].
  rewrite (@streaming_collects (timeouts payload) payload rest [] _ fuel
             eq_refl eq_refl Hp Hf).
  cbn [app]. rewrite removelast_last, <- !app_assoc. reflexivity.
Qed.

(** The same when every byte arrives in time. *)
Lemma run_framed_sent (fuel n : nat) (residue junk payload rest : bytes) :
  ~ In LF junk ->
  4 <= n ->
  ~ In HASH payload ->
  fst (run (S fuel) None
         (serial residue
            (sent (EQ :: junk ++ repeat EQ n ++ [LF] ++ payload ++ [HASH] ++ rest))))
  = Returned (utf8_decode_ignore payload).
Proof.
  intros Hj Hn Hp. unfold serial.
  replace (sent (EQ :: junk ++ repeat EQ n ++ [LF] ++ payload ++ [HASH] ++ rest))
    with (Some EQ :: sent (junk ++ repeat EQ n)
            ++ Some LF :: sent payload ++ Some HASH :: sent rest).
  - rewrite run_framed; try assumption.
    + now rewrite arrived_sent.
    + now rewrite in_sent.
    + rewrite timeouts_sent. lia.
  - cbn [sent map]. f_equal. unfold sent.
    rewrite !map_app. cbn [map app]. now rewrite <- !app_assoc.
Qed.

Lemma run_started (fuel n : nat) (residue : bytes)
  (payload rest : list (option byte)) :
  4 <= n ->
  ~ In (Some HASH) payload ->
  timeouts payload < fuel ->
  run fuel None
    (serial residue (sent (start_line (S n)) ++ payload ++ Some HASH :: rest))
  = (Returned (utf8_decode_ignore (arrived payload)),
     MkSerial [] rest
       ([ResetInputBuffer; ReadUntil EQ; ReadUntil LF]
          ++ repeat (ReadUntil HASH) (S (timeouts payload)))).
Proof.
  intros Hn Hp Hf. unfold serial, start_line.
  replace (sent (repeat EQ (S n) ++ [LF]) ++ payload ++ Some HASH :: rest)
    with (Some EQ :: sent ([] ++ repeat EQ n)
            ++ Some LF :: payload ++ Some HASH :: rest).
  - now rewrite run_framed.
  - unfold sent. rewrite !map_app. cbn [repeat map app].
    now rewrite <- !app_assoc.
Qed.

Lemma run_started_sent (fuel n : nat) (residue payload rest : bytes) :
  4 <= n ->
  ~ In HASH payload ->
  run (S fuel) None
    (serial residue (sent (start_line (S n) ++ payload ++ [HASH] ++ rest)))
  = (Returned (utf8_decode_ignore payload),
     MkSerial [] (sent rest)
       [ResetInputBuffer; ReadUntil EQ; ReadUntil LF; ReadUntil HASH]).
Proof.
  intros Hn Hp.
  replace (sent (start_line (S n) ++ payload ++ [HASH] ++ rest))
    with (sent (start_line (S n)) ++ sent payload ++ Some HASH :: sent rest)
    by (unfold sent; now rewrite !map_app).
  rewrite run_started; try assumption.
  - now rewrite arrived_sent, timeouts_sent.
  - now rewrite in_sent.
  - rewrite timeouts_sent. lia.
Qed.


(** When the payload brings no [#], the run reads on for ever. *)
Lemma run_starved (n : nat) (residue : bytes) (payload : list (option byte)) :
  4 <= n ->
  ~ In (Some HASH) payload ->
  always (fun fuel =>
            fst (run fuel None (serial residue (sent (start_line (S n)) ++ payload))))
    OutOfFuel.
Proof.
  intros Hn Hp fuel. unfold run, reset_input_buffer, serial, start_line.
  cbn [incoming calls]. rewrite read_until_line.
  replace (sent (repeat EQ (S n) ++ [LF]) ++ payload)
    with (sent [] ++ Some EQ :: sent (repeat EQ n) ++ Some LF :: payload)
    by (unfold sent; rewrite !map_app; cbn [repeat map app];
        now rewrite <- !app_assoc).
  rewrite read_line_found by (intros []). cbn [fst snd app bytes_eqb].
  rewrite byte_eqb_refl. cbn [andb negb].
  rewrite read_until_line, read_line_found
    by (apply repeat_not_in; discriminate).
  cbn [fst snd].
  pose proof (@start_pat_accepts [] n Hn) as Ha. cbn [app] in Ha.
  rewrite Ha. cbn [negb].
  cbn [app].
  pose proof (@streaming_starved fuel payload []
                [ResetInputBuffer; ReadUntil EQ; ReadUntil LF] eq_refl Hp) as H.
  destruct (streaming fuel [] _) as [[out|] dev']; [discriminate H|reflexivity].
Qed.

(** When no [=] arrives, the first read comes back without one. *)
Lemma run_no_equal_sign (fuel : nat) (residue : bytes)
  (line : list (option byte)) :
  ~ In (Some EQ) line ->
  fst (run fuel None (serial residue line))
  = Raised (Exception "Timout waiting for start").
Proof.
  intros Hl. unfold run, reset_input_buffer, serial. cbn [incoming calls].
  rewrite read_until_line.
  destruct (@read_line_absent EQ line Hl) as [H _].
  destruct (fst (read_line EQ line)) as [|c [|d got]] eqn:E; cbn [bytes_eqb negb fst];
    try reflexivity.
  - rewrite byte_eqb_neq; [reflexivity|]. intros ->. apply H. now left.
  - now rewrite andb_false_r.
Qed.

(** ** The scope target *)

Lemma no_equal_sign (data : chars) :
  ~ In "="%char data -> existsb (Ascii.eqb "="%char) data = false.
Proof.
  intros H. destruct (existsb (Ascii.eqb "="%char) data) eqn:E; [|reflexivity].
  apply existsb_exists in E. destruct E as (c & Hc & E).
  apply Ascii.eqb_eq in E. now subst.
Qed.

(** Polling a target that never sends [=] does not end. *)
Lemma await_equal_starved (fuel : nat) :
  forall (data : chars) (t : Target),
    ~ In "="%char data ->
    (forall chunk, In chunk t -> ~ In "="%char chunk) ->
    ChipWhisperer.await_equal fuel data t = None.
Proof.
  induction fuel as [|fuel IH]; intros data t Hd Ht; simpl;
    rewrite (no_equal_sign data Hd); simpl; [reflexivity|].
  destruct t as [|chunk t]; simpl.
  - rewrite app_nil_r. now apply IH.
  - apply IH.
    + intros H. apply in_app_or in H. destruct H as [H|H]; [tauto|].
      revert H. apply Ht. now left.
    + intros c Hc. apply Ht. now right.
Qed.

(** * The properties *)

(** C1 (as amended). When the line opens with [=] after the input
    buffer was reset, goes on (after any bytes short of a newline) to a
    run of at least four [=] and a newline, and brings a payload free of
    [#] followed by [#], [run] returns the payload decoded, and for an
    ASCII payload exactly its text; bytes buffered before the reset do
    not show. *)
Theorem run_returns_payload (fuel n : nat) (residue junk payload rest : bytes) :
  ~ In LF junk ->
  4 <= n ->
  ~ In HASH payload ->
  fst (run (S fuel) (StLink.flash 0)
         (serial residue
            (sent (EQ :: junk ++ repeat EQ n ++ [LF] ++ payload ++ [HASH] ++ rest))))
  = Returned (utf8_decode_ignore payload)
  /\ (Forall is_ascii payload -> utf8_decode_ignore payload = map Byte.to_N payload).
Proof.
  intros Hj Hn Hp. split; [|apply decode_ascii].
  now apply run_framed_sent.
Qed.

(** Scenario A with the noise left in the input buffer before the run:
    the transcript is the line between the markers. *)
Lemma run_returns_payload_witness :
  fst (run 1 (StLink.flash 0)
         (serial (list_byte_of_string "noise")
            (sent (EQ :: [] ++ repeat EQ 9 ++ [LF]
                     ++ (list_byte_of_string "bench: 1234 cycles" ++ [LF])
                     ++ [HASH] ++ []))))
  = Returned (text "bench: 1234 cycles" ++ [10%N]).
Proof.
  refine (eq_trans
            (proj1 (@run_returns_payload 0 9 (list_byte_of_string "noise") []
                      (list_byte_of_string "bench: 1234 cycles" ++ [LF]) [] _ _ _))
            _).
  - simpl; tauto.
  - lia.
  - vm_compute. intuition discriminate.
  - reflexivity.
Defined.

(** A byte other than [=] at the head of the line fails the first check. *)
Lemma run_byte_before_start (fuel : nat) (residue : bytes) (c : byte)
  (line : list (option byte)) :
  c <> EQ ->
  fst (run fuel None (serial residue (Some c :: line)))
  = Raised (Exception "Timout waiting for start").
Proof.
  intros Hc. unfold run, reset_input_buffer, serial. cbn [incoming calls].
  rewrite read_until_line. cbn [read_line].
  rewrite (byte_eqb_neq Hc).
  destruct (read_line EQ line) as [got rest]. cbn [fst bytes_eqb].
  now rewrite (byte_eqb_neq Hc).
Qed.

Lemma scenario_A_on_the_line :
  always (fun fuel =>
            fst (run fuel (StLink.flash 0)
                   (serial []
                      (sent (list_byte_of_string "noise==========" ++ [LF]
                               ++ list_byte_of_string "bench: 1234 cycles"
                               ++ [LF; HASH])))))
    (Raised (Exception "Timout waiting for start")).
Proof. intros fuel. now apply run_byte_before_start. Qed.

Lemma payload_with_hash_cut :
  ~ (exists fuel,
        fst (run fuel (StLink.flash 0)
               (serial []
                  (sent (list_byte_of_string "=====" ++ [LF]
                           ++ list_byte_of_string "a#b" ++ [HASH]))))
        = Returned (text "a#b")).
Proof.
  intros [[|fuel] H]; [discriminate H|].
  change (sent _)
    with (sent (start_line 5 ++ list_byte_of_string "a" ++ [HASH]
                  ++ list_byte_of_string "b#")) in H.
  change (StLink.flash 0) with (@None exn) in H.
  rewrite run_started_sent in H; [discriminate H|lia|].
  intros [H1|[]]. discriminate H1.
Qed.

(** C1 (as stated) fails: with the noise on the line, scenario A ends in
    the exception of the first check, and a payload that holds a [#] is
    not returned whole. *)
Lemma run_scenario_A_raises :
  always (fun fuel =>
            fst (run fuel (StLink.flash 0)
                   (serial []
                      (sent (list_byte_of_string "noise==========" ++ [LF]
                               ++ list_byte_of_string "bench: 1234 cycles"
                               ++ [LF; HASH])))))
    (Raised (Exception "Timout waiting for start"))
  /\ ~ (exists fuel,
          fst (run fuel (StLink.flash 0)
                 (serial []
                    (sent (list_byte_of_string "=====" ++ [LF]
                             ++ list_byte_of_string "a#b" ++ [HASH]))))
          = Returned (text "a#b")).
Proof. exact (conj scenario_A_on_the_line payload_with_hash_cut). Qed.

(** C2 (code defect). [ChipWhisperer.run] keeps the text up to the end of
    the start line instead of removing it ([data = data[:match.end()]]
    under the comment "Remove the start pattern"): on the polls ["="],
    ["====\n"], ["ok\n#\n"] the transcript is ["=====\nok\n"], start
    line first, and not ["ok\n"]. *)
Theorem chipwhisperer_keeps_start_line :
  ChipWhisperer.run 1 None
    [chars_of "="; chars_of "====" ++ [NL];
     chars_of "ok" ++ [NL] ++ chars_of "#" ++ [NL]]
  = Returned (chars_of "=====" ++ [NL] ++ chars_of "ok" ++ [NL]).
Proof. vm_compute. reflexivity. Qed.

(** The payload that shares a chunk with the start line is cut off with
    it by the same slice: nothing is left to match the end pattern, and
    the run polls on. *)
Lemma await_match_starved (pat : Re.pattern ascii) (data : chars) (fuel : nat) :
  Re.re_match Ascii.eqb pat data = None ->
  ChipWhisperer.await_match pat fuel data [] = None.
Proof.
  intros H. induction fuel as [|fuel IH]; simpl; [reflexivity|].
  rewrite app_nil_r, H. exact IH.
Qed.

Lemma await_equal_done (fuel : nat) (data : chars) (t : Target) :
  existsb (Ascii.eqb "="%char) data = true ->
  ChipWhisperer.await_equal fuel data t = Some (data, t).
Proof. intros H. destruct fuel; simpl; now rewrite H. Qed.

Example chipwhisperer_loses_payload :
  never_finishes
    (fun fuel =>
       ChipWhisperer.run (S fuel) None
         [chars_of "=====" ++ [NL] ++ chars_of "ok" ++ [NL] ++ chars_of "#" ++ [NL]]).
Proof.
  intros fuel. unfold ChipWhisperer.run.
  cbn [ChipWhisperer.await_equal chars_of list_ascii_of_string app existsb
         negb target_read].
  rewrite await_equal_done by reflexivity.
  cbn [ChipWhisperer.await_match target_read]. rewrite app_nil_r.
  replace (Re.re_match Ascii.eqb ChipWhisperer.start_pat _) with (Some 6)
    by (vm_compute; reflexivity).
  cbn [firstn target_read app].
  replace (Re.re_match Ascii.eqb ChipWhisperer.end_pat _) with (@None nat)
    by (vm_compute; reflexivity).
  now rewrite await_match_starved.
Qed.




(** C5 (as amended). A timeout while streaming does not fail the run:
    [read_until] comes back with what arrived and the loop reads again,
    so the bytes before and after the timeouts make the transcript once
    the [#] arrives; and when it never arrives the run reads on without
    end and without raising. *)
Theorem timeout_while_streaming (fuel n : nat) (residue : bytes)
  (payload rest : list (option byte)) :
  4 <= n ->
  ~ In (Some HASH) payload ->
  timeouts payload < fuel ->
  fst (run fuel (StLink.flash 0)
         (serial residue (sent (start_line (S n)) ++ payload ++ Some HASH :: rest)))
  = Returned (utf8_decode_ignore (arrived payload))
  /\ never_finishes
       (fun fuel' =>
          fst (run fuel' (StLink.flash 0)
                 (serial residue (sent (start_line (S n)) ++ payload)))).
Proof.
  intros Hn Hp Hf. split.
  - change (StLink.flash 0) with (@None exn). now rewrite run_started.
  - now apply run_starved.
Qed.

(** [a], a timeout, [b], and then [#] or nothing more. *)
Lemma timeout_while_streaming_witness :
  fst (run 2 (StLink.flash 0)
         (serial []
            (sent (start_line 5) ++ [Some "a"%byte; None; Some "b"%byte]
               ++ Some HASH :: [])))
  = Returned (text "ab")
  /\ never_finishes
       (fun fuel' =>
          fst (run fuel' (StLink.flash 0)
                 (serial []
                    (sent (start_line 5) ++ [Some "a"%byte; None; Some "b"%byte])))).
Proof.
  apply (@timeout_while_streaming 2 4 [] [Some "a"%byte; None; Some "b"%byte] []).
  - lia.
  - simpl. intuition discriminate.
  - simpl. lia.
Defined.

(** C5 (as stated) fails: when the reads after the start line time out
    for good, the run does not end in a failure, it does not end. *)
Lemma streaming_timeout_not_raised :
  never_finishes
    (fun fuel =>
       fst (run fuel (StLink.flash 0)
              (serial []
                 (sent (start_line 5)
                    ++ [Some "a"%byte; Some "b"%byte; None; None])))).
Proof.
  apply run_starved; [lia|]. simpl. intuition discriminate.
Qed.

Lemma chipwhisperer_starved (t : Target) :
  (forall chunk, In chunk t -> ~ In "="%char chunk) ->
  never_finishes (fun fuel => ChipWhisperer.run fuel None t).
Proof.
  intros Ht fuel. unfold ChipWhisperer.run.
  rewrite await_equal_starved; [reflexivity|intros []|exact Ht].
Qed.

(** C6 (as amended). When no [=] arrives, the byte reader fails with
    "Timout waiting for start" and not with "Start does not match"; the
    scope reader has no timeout, it polls on and fails with nothing. *)
Theorem no_start_on_the_line (fuel : nat) (residue : bytes)
  (line : list (option byte)) (t : Target) :
  ~ In (Some EQ) line ->
  (forall chunk, In chunk t -> ~ In "="%char chunk) ->
  fst (run fuel (StLink.flash 0) (serial residue line))
  = Raised (Exception "Timout waiting for start")
  /\ never_finishes (fun fuel' => ChipWhisperer.run fuel' None t).
Proof.
  intros Hl Ht. split.
  - now apply run_no_equal_sign.
  - now apply chipwhisperer_starved.
Qed.

Lemma no_start_on_the_line_witness :
  fst (run 1 (StLink.flash 0)
         (serial [] (sent (list_byte_of_string "boot") ++ [None])))
  = Raised (Exception "Timout waiting for start")
  /\ never_finishes
       (fun fuel' => ChipWhisperer.run fuel' None [chars_of "boot"; chars_of "log"]).
Proof.
  apply (@no_start_on_the_line 1 [] (sent (list_byte_of_string "boot") ++ [None])
           [chars_of "boot"; chars_of "log"]).
  - simpl. intuition discriminate.
  - simpl. intros chunk [<-|[<-|[]]]; simpl; intuition discriminate.
Defined.

(** C6 (as stated) fails for the scope reader: with no [=] in what the
    target sends, its run never fails. *)
Lemma chipwhisperer_never_times_out :
  never_finishes
    (fun fuel => ChipWhisperer.run fuel None [chars_of "boot"; chars_of "log"]).
Proof.
  apply chipwhisperer_starved.
  simpl. intros chunk [<-|[<-|[]]]; simpl; intuition discriminate.
Qed.

(** C7. When the flashing tool exits with a status other than zero,
    [run] raises the [CalledProcessError] of [check_call] and leaves the
    serial handle as it was: no [reset_input_buffer], no [read_until]. *)
Theorem flash_failure_before_any_read (fuel : nat) (status : Z) (dev : Serial) :
  status <> 0%Z ->
  run fuel (StLink.flash status) dev = (Raised (CalledProcessError status), dev).
Proof.
  intros Hs. unfold StLink.flash, check_call.
  apply Z.eqb_neq in Hs. now rewrite Hs.
Qed.

Lemma flash_failure_before_any_read_witness :
  run 1 (StLink.flash 1) (serial [] (sent (start_line 5 ++ [HASH])))
  = (Raised (CalledProcessError 1), serial [] (sent (start_line 5 ++ [HASH]))).
Proof.
  apply (@flash_failure_before_any_read 1 1%Z). discriminate.
Defined.

(** C8 (as amended). [flash] has no handler around its programmer
    calls: the first call that raises ends it with that exception, the
    calls behind it are not made, and [close] is among the calls made
    only when it is itself the call that raised. *)
Theorem flash_stops_at_first_failure (prog : step -> option exn)
  (done todo : list step) (s : step) (e : exn) :
  [Open; Find; Erase; Program; Close] = done ++ s :: todo ->
  (forall s', In s' done -> prog s' = None) ->
  prog s = Some e ->
  ChipWhisperer.flash prog = (Some e, done ++ [s])
  /\ (In Close (snd (ChipWhisperer.flash prog)) <-> s = Close).
Proof.
  intros Hseq Hdone Hs.
  assert (H : ChipWhisperer.flash prog = (Some e, done ++ [s])).
  { unfold ChipWhisperer.flash.
    do 5 (destruct done as [|? done];
          [injection Hseq as <- _; now rewrite Hs|];
          injection Hseq as <- Hseq; rewrite (Hdone _ (or_introl eq_refl));
          specialize (fun s' H => Hdone s' (or_intror H))).
    destruct done; discriminate Hseq. }
  split; [exact H|]. rewrite H. cbn [snd].
  do 5 (destruct done as [|? done];
        [injection Hseq as <- _; simpl; intuition discriminate|];
        injection Hseq as <- Hseq).
  destruct done; discriminate Hseq.
Qed.

(** [erase] raises: [open], [find] and [erase] were called, [close] was
    not. *)
Lemma flash_stops_at_first_failure_witness :
  ChipWhisperer.flash
    (fun s => match s with Erase => Some (IOError "erase") | _ => None end)
  = (Some (IOError "erase"), [Open; Find] ++ [Erase])
  /\ (In Close
        (snd (ChipWhisperer.flash
                (fun s => match s with Erase => Some (IOError "erase") | _ => None end)))
      <-> Erase = Close).
Proof.
  apply (@flash_stops_at_first_failure
           (fun s => match s with Erase => Some (IOError "erase") | _ => None end)
           [Open; Find] [Program; Close] Erase (IOError "erase")).
  - reflexivity.
  - intros s' [<-|[<-|[]]]; reflexivity.
  - reflexivity.
Defined.

(** C8 (as stated) fails: when [erase] raises, [close] is not called. *)
Lemma flash_failure_skips_close :
  ~ In Close
      (snd (ChipWhisperer.flash
              (fun s => match s with Erase => Some (IOError "erase") | _ => None end))).
Proof. simpl. intuition discriminate. Qed.

(** U+FFFD is decoded from its own three bytes only. *)
Lemma decode_replacement (n : nat) :
  forall s : bytes,
    List.length s <= n ->
    In REPLACEMENT_CHARACTER (utf8_decode_ignore s) ->
    exists pre post, s = pre ++ [xef; xbf; xbd] ++ post.
Proof.
  induction n as [|n IH]; intros s Hlen; destruct s as [|b0 t0];
    try (simpl; tauto); [simpl in Hlen; lia|].
  cbn [utf8_decode_ignore].
  repeat (match goal with
          | |- context [if ?b then _ else _] => destruct b eqn:?
          | |- context [match ?l with [] => _ | _ :: _ => _ end] =>
              is_var l; destruct l
          end; cbv beta iota zeta);
    cbn [In]; intros Hin;
    try contradiction;
    try (destruct Hin as [Hin|Hin];
         [ unfold REPLACEMENT_CHARACTER in Hin; bool_facts;
           first
             [ exfalso; lia
             | match type of Hin with
               | (Byte.to_N ?x * 4096 + Byte.to_N ?y * 64 + Byte.to_N ?z - _)%N = _ =>
                   assert (Ex : Byte.to_N x = Byte.to_N xef)
                     by (change (Byte.to_N xef) with 239%N; lia);
                   assert (Ey : Byte.to_N y = Byte.to_N xbf)
                     by (change (Byte.to_N xbf) with 191%N; lia);
                   assert (Ez : Byte.to_N z = Byte.to_N xbd)
                     by (change (Byte.to_N xbd) with 189%N; lia);
                   apply to_N_inj in Ex, Ey, Ez; subst x y z;
                   now exists [], t0
               end ] | ]);
    (apply IH in Hin; [|simpl in Hlen |- *; lia]);
    destruct Hin as (pre & post & ->);
    first [ now exists (b0 :: pre), post
          | now exists (b0 :: b :: pre), post
          | now exists (b0 :: b :: b1 :: pre), post
          | now exists (b0 :: b :: b1 :: b2 :: pre), post ].
Qed.

(** C9 (as amended). The buffer is decoded with the [ignore] handler:
    [run] returns a transcript whatever bytes were captured, U+FFFD
    shows in it only where the payload holds its three bytes, and a byte
    that cannot start a sequence is dropped from the text, not
    replaced. *)
Theorem invalid_bytes_are_dropped (fuel n : nat) (residue payload a b : bytes)
  (x : byte) :
  4 <= n ->
  ~ In HASH payload ->
  Forall is_ascii a ->
  invalid_start x ->
  fst (run (S fuel) (StLink.flash 0)
         (serial residue (sent (start_line (S n) ++ payload ++ [HASH] ++ []))))
  = Returned (utf8_decode_ignore payload)
  /\ (In REPLACEMENT_CHARACTER (utf8_decode_ignore payload) ->
      exists pre post, payload = pre ++ [xef; xbf; xbd] ++ post)
  /\ utf8_decode_ignore (a ++ x :: b) = map Byte.to_N a ++ utf8_decode_ignore b.
Proof.
  intros Hn Hp Ha Hx. split; [|split].
  - change (StLink.flash 0) with (@None exn). now rewrite run_started_sent.
  - apply (@decode_replacement (List.length payload)). apply le_n.
  - now rewrite decode_ascii_app, decode_invalid_start.
Qed.

(** [a], the byte 0xFF, [b]: the transcript is [ab]. *)
Lemma invalid_bytes_are_dropped_witness :
  fst (run 1 (StLink.flash 0)
         (serial []
            (sent (start_line 5 ++ (["a"%byte] ++ xff :: ["b"%byte]) ++ [HASH] ++ []))))
  = Returned (text "ab").
Proof.
  refine (proj1 (@invalid_bytes_are_dropped 0 4 [] (["a"%byte] ++ xff :: ["b"%byte])
                   ["a"%byte] ["b"%byte] xff _ _ _ _)).
  - lia.
  - simpl. intuition discriminate.
  - repeat constructor.
  - right. vm_compute. discriminate.
Defined.

(** C9 (as stated) fails: the byte 0xFF between [a] and [b] leaves no
    U+FFFD in the transcript. *)
Lemma invalid_byte_not_replaced :
  ~ (exists fuel,
        fst (run fuel (StLink.flash 0)
               (serial []
                  (sent (start_line 5 ++ ["a"%byte; xff; "b"%byte] ++ [HASH] ++ []))))
        = Returned [97%N; REPLACEMENT_CHARACTER; 98%N]).
Proof.
  intros [[|fuel] H]; [discriminate H|].
  change (StLink.flash 0) with (@None exn) in H.
  rewrite run_started_sent in H; [discriminate H|lia|].
  simpl. intuition discriminate.
Qed.

(** C10. The transcript [run] returns holds no [#]: the loop stops as
    soon as the buffer ends in [#], every [read_until] chunk ends at the
    first [#] it meets, the one [#] is cut off, and the decoder makes no
    [#] of other bytes. *)
Theorem transcript_has_no_hash (fuel : nat) (flashed : option exn)
  (dev dev' : Serial) (t : str) :
  run fuel flashed dev = (Returned t, dev') ->
  ~ In (Byte.to_N HASH) t.
Proof.
  unfold run. intros H. destruct flashed; [discriminate H|].
  destruct (read_until EQ _) as [first d1].
  destruct (negb (bytes_eqb first [EQ])); [discriminate H|].
  destruct (read_until LF d1) as [start d2].
  destruct (negb _); [discriminate H|].
  destruct (streaming fuel [] d2) as [[out|] d3] eqn:E; [|discriminate H].
  injection H as <- <-. apply decode_no_hash.
  apply (@streaming_shape fuel [] out d2 d3); [|exact E].
  simpl. tauto.
Qed.

Lemma transcript_has_no_hash_witness :
  ~ In (Byte.to_N HASH) (text "a=b").
Proof.
  apply (@transcript_has_no_hash 1 (StLink.flash 0)
           (serial []
              (sent (start_line 5 ++ list_byte_of_string "a=b" ++ [HASH]
                       ++ list_byte_of_string "c#")))
           (MkSerial [] (sent (list_byte_of_string "c#"))
              [ResetInputBuffer; ReadUntil EQ; ReadUntil LF; ReadUntil HASH])).
  vm_compute. reflexivity.
Defined.

(** * Further properties of the code *)

(** ** The byte reader's start line *)

Lemma backtrack_some (k : nat -> option nat) (lo n e : nat) :
  Re.backtrack k lo n = Some e -> exists j, lo <= j <= lo + n /\ k j = Some e.
Proof.
  induction n as [|n IH]; simpl; intros H.
  - exists lo. split; [lia|exact H].
  - destruct (k (lo + S n)) eqn:E.
    + exists (lo + S n). split; [lia|congruence].
    + destruct (IH H) as (j & Hj & Hk). exists j. split; [lia|exact Hk].
Qed.

(** The first count, from the top, at which the rest matches is the one
    the quantifier settles on. *)
Lemma backtrack_first (k : nat -> option nat) (lo n j e : nat) :
  lo <= j <= lo + n ->
  k j = Some e ->
  (forall j', j < j' <= lo + n -> k j' = None) ->
  Re.backtrack k lo n = Some e.
Proof.
  induction n as [|n IH]; simpl; intros Hj Hk Hn.
  - now replace lo with j by lia.
  - destruct (Nat.eq_dec j (lo + S n)) as [->|Hne]; [now rewrite Hk|].
    rewrite Hn by lia. apply IH; [lia|exact Hk|]. intros j' Hj'. apply Hn. lia.
Qed.

Lemma span_firstn (c : byte) (j : nat) (s : bytes) :
  j <= Re.span Byte.eqb (Re.Lit c) s -> firstn j s = repeat c j.
Proof.
  revert s. induction j as [|j IH]; intros s H; [reflexivity|].
  destruct s as [|b s]; simpl in H; [lia|].
  destruct (Byte.eqb b c) eqn:E; [|lia].
  apply byte_eqb_true in E. subst. simpl. f_equal. apply IH. lia.
Qed.

(** What [={4,}\n] matches whole: a run of at least four [=] and a
    newline. *)
Lemma start_run_only (u : bytes) (e : nat) :
  Re.match_here Byte.eqb true
    [Re.Item (Re.Lit EQ) 4 true; Re.Item (Re.Lit LF) 1 false] u = Some e ->
  exists n, 4 <= n /\ u = repeat EQ n ++ [LF].
Proof.
  rewrite match_here_cons. cbn [Re.it_cls Re.it_min Re.it_open].
  destruct (Nat.ltb_spec (Re.span Byte.eqb (Re.Lit EQ) u) 4) as [?|Hs];
    [discriminate|].
  intros H. apply backtrack_some in H. destruct H as (j & Hj & H).
  exists j. split; [lia|].
  rewrite <- (firstn_skipn j u) at 1.
  rewrite (@span_firstn EQ j u) by lia. f_equal.
  destruct (Re.match_here Byte.eqb true [Re.Item (Re.Lit LF) 1 false] (skipn j u))
    as [e'|] eqn:E; [clear H|discriminate H].
  rewrite match_here_cons in E. cbn [Re.it_cls Re.it_min Re.it_open] in E.
  destruct (skipn j u) as [|b w]; [discriminate E|].
  cbn [Re.span Re.accepts] in E.
  destruct (Byte.eqb b LF) eqn:Eb; [|discriminate E].
  apply byte_eqb_true in Eb. subst b.
  destruct (S (Re.span Byte.eqb (Re.Lit LF) w) <? 1); [discriminate E|].
  cbn [skipn] in E. rewrite match_here_nil in E.
  destruct w; [reflexivity|discriminate E].
Qed.

(** The pattern matches whole only what ends in four [=] and a
    newline. *)
Lemma start_pat_only (start : bytes) :
  Re.re_fullmatch Byte.eqb start_pat start = true ->
  exists junk, start = junk ++ [EQ; EQ; EQ; EQ; LF].
Proof.
  unfold Re.re_fullmatch, start_pat.
  destruct (Re.match_here _ _ _ _) as [e|] eqn:E; [intros _|discriminate].
  rewrite match_here_cons in E. cbn [Re.it_cls Re.it_min Re.it_open] in E.
  rewrite span_dot in E.
  destruct (Nat.ltb_spec (List.length start) 0) as [?|_]; [lia|].
  apply backtrack_some in E. destruct E as (j & _ & E).
  destruct (Re.match_here Byte.eqb true
              [Re.Item (Re.Lit EQ) 4 true; Re.Item (Re.Lit LF) 1 false]
              (skipn j start)) as [e'|] eqn:E'; [|discriminate E].
  apply start_run_only in E'. destruct E' as (n & Hn & Hu).
  exists (firstn j start ++ repeat EQ (n - 4)).
  rewrite <- (firstn_skipn j start) at 1. rewrite Hu.
  replace n with ((n - 4) + 4) at 1 by lia.
  rewrite repeat_app, <- !app_assoc. reflexivity.
Qed.

(** X1. [start_pat.fullmatch(start)] succeeds exactly on the byte
    strings that end in four [=] and a newline: whatever comes before
    them, further [=] and newlines included, is taken by the leading
    [.*]. *)
Theorem start_pat_fullmatch_iff (start : bytes) :
  Re.re_fullmatch Byte.eqb start_pat start = true
  <-> exists junk, start = junk ++ [EQ; EQ; EQ; EQ; LF].
Proof.
  split; [apply start_pat_only|].
  intros [junk ->]. apply (@start_pat_accepts junk 4). lia.
Qed.

(** X2. A timeout inside the start line is not reported as a timeout:
    when the line opens with [=] and the newline does not arrive in
    time, what was read does not end in a newline and [run] raises
    "Start does not match". *)
Theorem start_line_timeout_is_mismatch (fuel : nat) (residue part : bytes)
  (rest : list (option byte)) :
  ~ In LF part ->
  fst (run fuel (StLink.flash 0)
         (serial residue (Some EQ :: sent part ++ None :: rest)))
  = Raised (Exception "Start does not match").
Proof.
  intros Hp. unfold run, reset_input_buffer, serial, StLink.flash, check_call.
  cbn [Z.eqb incoming calls]. rewrite read_until_line.
  change (Some EQ :: ?l) with (sent [] ++ Some EQ :: l).
  rewrite read_line_found by (intros []). cbn [fst snd app bytes_eqb].
  rewrite byte_eqb_refl. cbn [andb negb].
  rewrite read_until_line, read_line_timeout by exact Hp. cbn [fst snd].
  destruct (Re.re_fullmatch Byte.eqb start_pat part) eqn:E; [|reflexivity].
  apply start_pat_only in E. destruct E as [junk ->].
  exfalso. apply Hp, in_or_app. right. simpl. tauto.
Qed.

Lemma start_line_timeout_is_mismatch_witness :
  fst (run 1 (StLink.flash 0)
         (serial [] (Some EQ :: sent (list_byte_of_string "=====") ++ None :: [])))
  = Raised (Exception "Start does not match").
Proof.
  apply (@start_line_timeout_is_mismatch 1 [] (list_byte_of_string "=====") []).
  vm_compute. intuition discriminate.
Defined.

(** ** When the byte reader returns *)

(** What a [read_until] took off the line: the bytes it returns, with a
    timeout behind them unless they end in [expected] or the line ran
    dry. *)
Lemma read_line_inv (expected : byte) (line : list (option byte)) :
  (exists got,
      fst (read_line expected line) = got ++ [expected]
      /\ ~ In expected got
      /\ line = sent (got ++ [expected]) ++ snd (read_line expected line))
  \/ (~ In expected (fst (read_line expected line))
      /\ (line = sent (fst (read_line expected line))
                   ++ None :: snd (read_line expected line)
          \/ (line = sent (fst (read_line expected line))
              /\ snd (read_line expected line) = []))).
Proof.
  induction line as [|[c|] line IH]; simpl.
  - right. split; [tauto|]. right. now split.
  - destruct (Byte.eqb c expected) eqn:E.
    + apply byte_eqb_true in E. subst c. left. exists []. simpl. tauto.
    + assert (Hc : c <> expected) by (intros ->; now rewrite byte_eqb_refl in E).
      destruct (read_line expected line) as [got rest]. simpl in *.
      destruct IH as [(g & Hg & Hn & Hl)|(Hn & [Hl|(Hl & Hr)])].
      * left. exists (c :: g). subst got.
        split; [reflexivity|]. split; [intros [?|?]; [congruence|tauto]|].
        simpl. now rewrite <- Hl.
      * right. split; [intros [?|?]; [congruence|tauto]|]. left.
        simpl. now rewrite <- Hl.
      * right. split; [intros [?|?]; [congruence|tauto]|]. right.
        split; [simpl; now rewrite <- Hl|exact Hr].
  - right. split; [tauto|]. now left.
Qed.

(** The loop ends only when a [#] arrives, with fewer timeouts before it
    than the loop has rounds. *)
Lemma streaming_inv (fuel : nat) :
  forall (line : list (option byte)) (out out' : bytes) (cs : list call)
         (dev' : Serial),
    not_done out = true ->
    streaming fuel out (MkSerial [] line cs) = (Some out', dev') ->
    exists payload rest,
      line = payload ++ Some HASH :: rest
      /\ ~ In (Some HASH) payload
      /\ timeouts payload < fuel.
Proof.
  induction fuel as [|fuel IH]; intros line out out' cs dev' Ho Hs.
  - simpl in Hs. rewrite Ho in Hs. discriminate Hs.
  - rewrite streaming_step, read_until_line in Hs by exact Ho.
    cbn [fst snd] in Hs.
    destruct (read_line_inv HASH line) as [(g & Hg & Hn & Hl)|(Hn & Hl)].
    + exists (sent g), (snd (read_line HASH line)).
      rewrite in_sent, timeouts_sent. repeat split; [|exact Hn|lia].
      rewrite Hl at 1. rewrite sent_app, <- app_assoc. reflexivity.
    + apply IH in Hs; [|now apply not_done_app].
      destruct Hs as (payload & rest & Hp & Hnp & Ht).
      destruct Hl as [Hl|[_ Hr]].
      * exists (sent (fst (read_line HASH line)) ++ None :: payload), rest.
        repeat split.
        -- rewrite Hl at 1. rewrite Hp, <- app_assoc. reflexivity.
        -- intros H. apply in_app_or in H.
           destruct H as [H|[H|H]]; [now apply in_sent in H|discriminate H|tauto].
        -- clear - Ht. induction (fst (read_line HASH line)); simpl; [lia|exact IHb].
      * rewrite Hr in Hp. now destruct payload.
Qed.

(** X3. [SerialCommsPlatform.run] returns a transcript exactly when the
    line, after the reset, opens with [=], goes on without a timeout to
    four [=] and a newline, and brings a [#] with fewer timeouts before
    it than the loop may take rounds: the transcript is then the text
    between that newline and the first [#], the handle is left just
    behind the [#] with the reads it took in its log, and what was in the
    input buffer before the call plays no part. *)
Theorem run_returns_iff (fuel : nat) (residue : bytes) (line : list (option byte))
  (cs : list call) (t : str) (dev' : Serial) :
  run fuel (StLink.flash 0) (MkSerial residue line cs) = (Returned t, dev')
  <-> exists junk payload rest,
        line = Some EQ :: sent (junk ++ repeat EQ 4) ++ Some LF
                 :: payload ++ Some HASH :: rest
        /\ ~ In LF junk
        /\ ~ In (Some HASH) payload
        /\ timeouts payload < fuel
        /\ t = utf8_decode_ignore (arrived payload)
        /\ dev' = MkSerial [] rest
                    (cs ++ [ResetInputBuffer; ReadUntil EQ; ReadUntil LF]
                        ++ repeat (ReadUntil HASH) (S (timeouts payload))).
Proof.
  change (StLink.flash 0) with (@None exn). split.
  - intros H.
    assert (Hshape :
              exists junk payload rest,
                line = Some EQ :: sent (junk ++ repeat EQ 4) ++ Some LF
                         :: payload ++ Some HASH :: rest
                /\ ~ In LF junk /\ ~ In (Some HASH) payload
                /\ timeouts payload < fuel).
    { unfold run, reset_input_buffer in H. cbn [incoming calls] in H.
      rewrite read_until_line in H.
      destruct (bytes_eqb (fst (read_line EQ line)) [EQ]) eqn:E1;
        [|discriminate H].
      cbn [negb] in H. rewrite read_until_line in H.
      destruct (Re.re_fullmatch Byte.eqb start_pat
                  (fst (read_line LF (snd (read_line EQ line))))) eqn:E2;
        [|discriminate H].
      cbn [negb] in H.
      destruct (streaming fuel [] _) as [[out|] d3] eqn:E3; [|discriminate H].
      apply streaming_inv in E3; [|reflexivity].
      destruct E3 as (payload & rest & Hp & Hnp & Ht).
      apply start_pat_only in E2. destruct E2 as [junk E2].
      (* the first read took one [=] off the line *)
      assert (Hfirst : fst (read_line EQ line) = [EQ]).
      { destruct (fst (read_line EQ line)) as [|c [|d g]]; cbn [bytes_eqb] in E1.
        - discriminate E1.
        - rewrite andb_true_r in E1. apply byte_eqb_true in E1. now subst.
        - rewrite andb_false_r in E1. discriminate E1. }
      destruct (read_line_inv EQ line) as [(g & Hg & _ & Hl)|(Hn & _)];
        [|rewrite Hfirst in Hn; exfalso; apply Hn; now left].
      rewrite Hfirst in Hg. destruct g as [|? [|? ?]]; try discriminate Hg.
      cbn [app sent map] in Hl.
      (* the second read took the start line *)
      destruct (read_line_inv LF (snd (read_line EQ line)))
        as [(g & Hg2 & Hn2 & Hl2)|(Hn & _)];
        [|rewrite E2 in Hn; exfalso; apply Hn, in_or_app; right; simpl; tauto].
      rewrite E2 in Hg2.
      change (junk ++ [EQ; EQ; EQ; EQ; LF])
        with (junk ++ [EQ; EQ; EQ; EQ] ++ [LF]) in Hg2.
      rewrite app_assoc in Hg2. apply app_inj_tail in Hg2.
      destruct Hg2 as [Hg2 _]. subst g.
      exists junk, payload, rest. repeat split; [|  |exact Hnp|exact Ht].
      + rewrite Hl, Hl2, Hp at 1. rewrite sent_app, <- !app_assoc. reflexivity.
      + intros Hj. apply Hn2, in_or_app. now left. }
    destruct Hshape as (junk & payload & rest & Hl & Hj & Hp & Ht).
    exists junk, payload, rest. subst line.
    rewrite run_framed in H by (assumption || lia).
    injection H as <- <-. repeat split; assumption.
  - intros (junk & payload & rest & -> & Hj & Hp & Ht & -> & ->).
    apply run_framed; (assumption || lia).
Qed.

(** ** Settings *)

Lemma lookup_optflags (opt : string) :
  (In opt opt_names /\ exists flags, M4Settings.lookup opt M4Settings.optflags = Some flags)
  \/ (~ In opt opt_names /\ M4Settings.lookup opt M4Settings.optflags = None).
Proof.
  unfold M4Settings.optflags, opt_names. cbn [M4Settings.lookup].
  destruct (String.eqb_spec opt "speed") as [->|H1];
    [left; split; [simpl; tauto|eauto]|].
  destruct (String.eqb_spec opt "size") as [->|H2];
    [left; split; [simpl; tauto|eauto]|].
  destruct (String.eqb_spec opt "debug") as [->|H3];
    [left; split; [simpl; tauto|eauto]|].
  right. split; [|reflexivity]. simpl. intuition congruence.
Qed.

Lemma init_unknown_opt (platform opt : string) (lto aio : bool)
  (binary_type : string) :
  ~ In opt opt_names ->
  M4Settings.init platform opt lto aio binary_type
  = inr (ValueError "Optimization flag should be in ['speed', 'size', 'debug']").
Proof.
  intros Hn. unfold M4Settings.init.
  destruct (lookup_optflags opt) as [(Hin & _)|(_ & ->)]; [tauto|reflexivity].
Qed.

Lemma init_known_opt (platform opt : string) (lto aio : bool)
  (binary_type : string) (s : M4Settings.t) :
  M4Settings.init platform opt lto aio binary_type = inl s ->
  In opt opt_names
  /\ M4Settings.binary_type s = binary_type
  /\ hd_error (M4Settings.makeflags s) = Some ("PLATFORM=" ++ platform)%string.
Proof.
  unfold M4Settings.init. intros H.
  destruct (lookup_optflags opt) as [(Hin & flags & Hf)|(_ & Hn)];
    rewrite ?Hf, ?Hn in H; [|discriminate H].
  injection H as <-. simpl. tauto.
Qed.

(** X4. [M4Settings] accepts the optimisation names [speed], [size] and
    [debug], spelled so, and raises [ValueError] with the list of the
    three for any other, whatever the other arguments. *)
Theorem settings_opt_checked (platform opt : string) (lto aio : bool)
  (binary_type : string) :
  ((exists s, M4Settings.init platform opt lto aio binary_type = inl s)
   <-> In opt opt_names)
  /\ (M4Settings.init platform opt lto aio binary_type
      = inr (ValueError "Optimization flag should be in ['speed', 'size', 'debug']")
      <-> ~ In opt opt_names).
Proof.
  unfold M4Settings.init.
  destruct (lookup_optflags opt) as [(Hin & flags & ->)|(Hn & ->)].
  - split; split; try tauto; try discriminate. intros _. eauto.
  - split; split; try tauto; try reflexivity.
    intros [s H]. discriminate H.
Qed.

(** X5. The make flags say what was asked for: the first is
    [PLATFORM=] with the platform, [LTO=1] is there exactly when [lto]
    is set, [AIO=1] exactly when [aio] is, [OPT_SIZE=1] exactly for
    [size] and [DEBUG=1] exactly for [debug], and no flag is there
    twice. *)
Theorem makeflags_content (platform opt : string) (lto aio : bool)
  (binary_type : string) (s : M4Settings.t) :
  M4Settings.init platform opt lto aio binary_type = inl s ->
  hd_error (M4Settings.makeflags s) = Some ("PLATFORM=" ++ platform)%string
  /\ (In "LTO=1"%string (M4Settings.makeflags s) <-> lto = true)
  /\ (In "AIO=1"%string (M4Settings.makeflags s) <-> aio = true)
  /\ (In "OPT_SIZE=1"%string (M4Settings.makeflags s) <-> opt = "size"%string)
  /\ (In "DEBUG=1"%string (M4Settings.makeflags s) <-> opt = "debug"%string)
  /\ NoDup (M4Settings.makeflags s).
Proof.
  unfold M4Settings.init. intros H.
  destruct (lookup_optflags opt) as [(Hin & _)|(_ & Hn)];
    [|rewrite Hn in H; discriminate H].
  unfold opt_names in Hin. simpl in Hin.
  destruct Hin as [<-|[<-|[<-|[]]]]; cbn in H; injection H as <-;
    destruct lto, aio; cbn;
    (repeat split;
     try (intros; discriminate);
     try (intros; reflexivity);
     try (intros; tauto);
     try (intros Hx; repeat (destruct Hx as [Hx|Hx]; try discriminate Hx);
          try contradiction; reflexivity);
     try (repeat constructor; simpl;
          intros Hx; repeat (destruct Hx as [Hx|Hx]; try discriminate Hx);
          contradiction)).
Qed.

Lemma makeflags_content_witness :
  hd_error (M4Settings.makeflags
              (M4Settings.Make "bin" ["PLATFORM=stm32f4discovery"; "OPT_SIZE=1"; "LTO=1"]%string))
  = Some ("PLATFORM=" ++ "stm32f4discovery")%string
  /\ (In "LTO=1"%string ["PLATFORM=stm32f4discovery"; "OPT_SIZE=1"; "LTO=1"]%string
      <-> true = true).
Proof.
  pose proof (@makeflags_content "stm32f4discovery" "size" true false "bin"
                (M4Settings.Make "bin"
                   ["PLATFORM=stm32f4discovery"; "OPT_SIZE=1"; "LTO=1"]%string)
                eq_refl) as H.
  exact (conj (proj1 H) (proj1 (proj2 H))).
Defined.

(** X6. The settings can be read back from what [M4Settings] builds:
    two calls that return the same [binary_type] and [makeflags] were
    given the same platform, optimisation, [lto], [aio] and binary
    type. *)
Theorem settings_injective (p p' o o' : string) (l l' a a' : bool)
  (b b' : string) (s : M4Settings.t) :
  M4Settings.init p o l a b = inl s ->
  M4Settings.init p' o' l' a' b' = inl s ->
  p = p' /\ o = o' /\ l = l' /\ a = a' /\ b = b'.
Proof.
  unfold M4Settings.init. intros H H'.
  destruct (lookup_optflags o) as [(Hin & _)|(_ & Hn)];
    [|rewrite Hn in H; discriminate H].
  destruct (lookup_optflags o') as [(Hin' & _)|(_ & Hn')];
    [|rewrite Hn' in H'; discriminate H'].
  unfold opt_names in Hin, Hin'. simpl in Hin, Hin'.
  destruct Hin as [<-|[<-|[<-|[]]]]; destruct Hin' as [<-|[<-|[<-|[]]]];
    cbn in H, H'; injection H as <-; injection H' as Hb Hp Hf;
    destruct l, a, l', a'; try discriminate Hf;
    (repeat split; congruence).
Qed.

Lemma settings_injective_witness :
  "nucleo-l476rg"%string = "nucleo-l476rg"%string
  /\ "debug"%string = "debug"%string /\ false = false /\ true = true
  /\ "bin"%string = "bin"%string.
Proof.
  exact (@settings_injective "nucleo-l476rg" "nucleo-l476rg" "debug" "debug"
           false false true true "bin" "bin"
           (M4Settings.Make "bin" ["PLATFORM=nucleo-l476rg"; "DEBUG=1"; "AIO=1"]%string)
           eq_refl eq_refl).
Defined.

(** ** The choice of a platform *)

(** X7. [get_platform] raises [NotImplementedError], and builds
    nothing, exactly for a platform name other than [stm32f4discovery],
    [nucleo-l476rg] and [cw308t-stm32f3]; the optimisation name is not
    looked at in that case. *)
Theorem unsupported_platform (host : Host) (args : Args) :
  get_platform host args = (inr (NotImplementedError "Unsupported Platform"), [])
  <-> ~ In (arg_platform args) platform_names.
Proof.
  unfold get_platform, platform_names. cbn [existsb In].
  destruct (String.eqb_spec (arg_platform args) "stm32f4discovery") as [E1|E1];
    [|destruct (String.eqb_spec (arg_platform args) "nucleo-l476rg") as [E2|E2];
      [|destruct (String.eqb_spec (arg_platform args) "cw308t-stm32f3") as [E3|E3]]];
    cbn [orb];
    try (split; [|intros H; exfalso; apply H; rewrite <- ? E1, <- ? E2, <- ? E3; tauto];
         repeat match goal with
           | |- context [match ?x with _ => _ end] => destruct x
           end; discriminate).
  split; [|reflexivity]. intros _ [H|[H|[H|[]]]]; congruence.
Qed.

(** X8. What [get_platform] returns belongs together: the scope
    platform goes with binary type [hex] and the name [cw308t-stm32f3],
    the ST-Link platform on the port [args.uart] with [bin]; the make
    flags open with the platform name asked for, and the platform
    returned is the only one that was built. *)
Theorem platform_and_settings (host : Host) (args : Args) (platform : Platform)
  (s : M4Settings.t) (built : list Platform) :
  get_platform host args = (inl (platform, s), built) ->
  built = [platform]
  /\ (platform = ChipWhispererScope
      /\ M4Settings.binary_type s = "hex"%string
      /\ arg_platform args = "cw308t-stm32f3"%string
      \/ platform = StLinkOn (arg_uart args)
         /\ M4Settings.binary_type s = "bin"%string
         /\ arg_platform args <> "cw308t-stm32f3"%string)
  /\ hd_error (M4Settings.makeflags s)
     = Some ("PLATFORM=" ++ arg_platform args)%string
  /\ In (arg_opt args) opt_names.
Proof.
  unfold get_platform. intros H.
  assert (Hs : forall bt,
             M4Settings.init (arg_platform args) (arg_opt args) (arg_lto args)
               (arg_aio args) bt = inl s ->
             M4Settings.binary_type s = bt
             /\ hd_error (M4Settings.makeflags s)
                = Some ("PLATFORM=" ++ arg_platform args)%string
             /\ In (arg_opt args) opt_names).
  { intros bt Hi. apply init_known_opt in Hi. tauto. }
  destruct (existsb _ _) eqn:Ex.
  - destruct (serial_error host); [discriminate H|].
    destruct (M4Settings.init _ _ _ _ "bin") as [s0|e] eqn:Hi; [|discriminate H].
    injection H as <- <- <-. destruct (Hs _ Hi) as (Hb & Hh & Ho).
    repeat split; try assumption. right. repeat split; [exact Hb|].
    intros E. rewrite E in Ex. discriminate Ex.
  - destruct (String.eqb_spec (arg_platform args) "cw308t-stm32f3") as [E|E];
      [|discriminate H].
    destruct (scope_error host); [discriminate H|].
    destruct (M4Settings.init _ _ _ _ "hex") as [s0|e] eqn:Hi; [|discriminate H].
    injection H as <- <- <-. destruct (Hs _ Hi) as (Hb & Hh & Ho).
    repeat split; try assumption. left. repeat split; assumption.
Qed.

Lemma platform_and_settings_witness :
  [StLinkOn (Some "/dev/ttyUSB0"%string)] = [StLinkOn (Some "/dev/ttyUSB0"%string)].
Proof.
  exact (proj1 (@platform_and_settings (MkHost None None)
                  (MkArgs "nucleo-l476rg" "speed" false false (Some "/dev/ttyUSB0"%string))
                  (StLinkOn (Some "/dev/ttyUSB0"%string))
                  (M4Settings.Make "bin" ["PLATFORM=nucleo-l476rg"%string])
                  [StLinkOn (Some "/dev/ttyUSB0"%string)] eq_refl)).
Defined.

(** X9. The optimisation name is checked last: for a platform name
    that is known and a host on which the platform can be built, an
    unknown optimisation name makes [get_platform] raise [ValueError]
    after it has built the platform, which it then does not return. *)
Theorem platform_built_before_opt_checked (host : Host) (args : Args) :
  In (arg_platform args) platform_names ->
  serial_error host = None ->
  scope_error host = None ->
  ~ In (arg_opt args) opt_names ->
  exists platform,
    get_platform host args
    = (inr (ValueError "Optimization flag should be in ['speed', 'size', 'debug']"),
       [platform]).
Proof.
  intros Hp Hse Hsc Ho. unfold get_platform. rewrite Hse, Hsc.
  assert (Hi : forall bt,
             M4Settings.init (arg_platform args) (arg_opt args) (arg_lto args)
               (arg_aio args) bt
             = inr (ValueError "Optimization flag should be in ['speed', 'size', 'debug']")).
  { intros bt. now apply init_unknown_opt. }
  rewrite !Hi.
  destruct (existsb _ _) eqn:Ex; [eauto|].
  destruct (String.eqb_spec (arg_platform args) "cw308t-stm32f3") as [E|E]; [eauto|].
  exfalso. unfold platform_names in Hp. simpl in Hp.
  destruct Hp as [Hp|[Hp|[Hp|[]]]]; [| |congruence];
    rewrite <- Hp in Ex; discriminate Ex.
Qed.

Lemma platform_built_before_opt_checked_witness :
  exists platform,
    get_platform (MkHost None None)
      (MkArgs "cw308t-stm32f3" "fast" false false None)
    = (inr (ValueError "Optimization flag should be in ['speed', 'size', 'debug']"),
       [platform]).
Proof.
  apply (@platform_built_before_opt_checked (MkHost None None)
           (MkArgs "cw308t-stm32f3" "fast" false false None)).
  - simpl. tauto.
  - reflexivity.
  - reflexivity.
  - simpl. intuition discriminate.
Defined.

(** ** The emulator's processes *)

Lemma alive_app (c1 c2 : list os_call) (running : list nat) :
  alive (c1 ++ c2) running = alive c2 (alive c1 running).
Proof.
  revert running. induction c1 as [|[pid args|pid|pid|pid] c1 IH];
    intros running; simpl; auto.
Qed.

Lemma drop_wrapper_alive (q : Qemu.t) (os : OS) :
  alive (os_calls os) [] = wrapped q ->
  alive (os_calls (snd (Qemu.drop_wrapper q os))) [] = []
  /\ Qemu.wrapper (fst (Qemu.drop_wrapper q os)) = None
  /\ Qemu.machine (fst (Qemu.drop_wrapper q os)) = Qemu.machine q.
Proof.
  unfold Qemu.drop_wrapper, wrapped. intros H.
  destruct (Qemu.wrapper q) as [pid|] eqn:E; simpl.
  - rewrite alive_app, H. simpl. now rewrite Nat.eqb_refl.
  - now rewrite E.
Qed.

Lemma step_alive (o : Qemu.op) (st : Qemu.t * OS) :
  alive (os_calls (snd st)) [] = wrapped (fst st) ->
  alive (os_calls (snd (Qemu.step o st))) [] = wrapped (fst (Qemu.step o st)).
Proof.
  intros H. destruct st as [q os]. destruct o as [[e|] path| |]; simpl in *.
  - exact H.
  - destruct (drop_wrapper_alive q os H) as (Ha & Hw & _).
    destruct (Qemu.drop_wrapper q os) as [q1 os1]. simpl in *.
    unfold popen.
    destruct (popen_errors os1) as [|[e|] errors]; simpl;
      rewrite ?alive_app, ?Ha; unfold wrapped; simpl; now rewrite ?Hw.
  - destruct (drop_wrapper_alive q os H) as (Ha & Hw & _).
    unfold Qemu.exit, wrapped. now rewrite Ha, Hw.
  - exact H.
Qed.

(** X10. However [flash], [__exit__] and [device] are called on a
    [Qemu] platform, and whichever of the emulators fail to start, the
    only process started and not killed is the one [self.wrapper] holds;
    after [__exit__] there is none. *)
Theorem qemu_keeps_one_process (machine : string) (pid : nat)
  (errors : list (option exn)) (ops : list Qemu.op) :
  alive (os_calls (snd (Qemu.steps ops (Qemu.init machine, MkOS pid errors [])))) []
  = wrapped (fst (Qemu.steps ops (Qemu.init machine, MkOS pid errors [])))
  /\ alive (os_calls (snd (Qemu.steps (ops ++ [Qemu.Exit])
                             (Qemu.init machine, MkOS pid errors [])))) []
     = [].
Proof.
  assert (H : forall ops st,
             alive (os_calls (snd st)) [] = wrapped (fst st) ->
             alive (os_calls (snd (Qemu.steps ops st))) []
             = wrapped (fst (Qemu.steps ops st))).
  { clear. intros ops. unfold Qemu.steps.
    induction ops as [|o ops IH]; intros st Hst; simpl; [exact Hst|].
    apply IH, step_alive, Hst. }
  split; [now apply H|].
  unfold Qemu.steps. rewrite fold_left_app. simpl.
  specialize (H ops (Qemu.init machine, MkOS pid errors []) eq_refl).
  unfold Qemu.steps in H.
  destruct (fold_left _ ops _) as [q os]. simpl in *.
  apply (drop_wrapper_alive q os H).
Qed.

(** X11. When the emulator does not start, [flash] raises what
    [Popen] raised and leaves the platform without a process: the one it
    had has been closed, terminated and killed, and [device()] raises
    "No process started yet". *)
Theorem qemu_failed_start (binary_path : string) (q : Qemu.t) (os : OS)
  (e : exn) (errors : list (option exn)) :
  popen_errors os = Some e :: errors ->
  fst (fst (Qemu.flash None binary_path q os)) = Some e
  /\ Qemu.device (snd (fst (Qemu.flash None binary_path q os)))
     = inr (Exception "No process started yet")
  /\ os_calls (snd (Qemu.flash None binary_path q os))
     = os_calls os
         ++ match Qemu.wrapper q with
            | Some old => [StdoutClose old; Terminate old; Kill old]
            | None => []
            end.
Proof.
  intros He. unfold Qemu.flash, Qemu.drop_wrapper, Qemu.device, popen.
  destruct (Qemu.wrapper q) as [old|] eqn:Ew; simpl; rewrite He; simpl.
  - auto.
  - rewrite Ew, app_nil_r. auto.
Qed.

Lemma qemu_failed_start_witness :
  fst (fst (Qemu.flash None "bin/test.elf" (Qemu.Make "lm3s6965evb" (Some 7))
              (MkOS 8 [Some (IOError "qemu-system-arm")] [Popen 7 []])))
  = Some (IOError "qemu-system-arm")
  /\ Qemu.device (snd (fst (Qemu.flash None "bin/test.elf"
                              (Qemu.Make "lm3s6965evb" (Some 7))
                              (MkOS 8 [Some (IOError "qemu-system-arm")] [Popen 7 []]))))
     = inr (Exception "No process started yet")
  /\ os_calls (snd (Qemu.flash None "bin/test.elf" (Qemu.Make "lm3s6965evb" (Some 7))
                      (MkOS 8 [Some (IOError "qemu-system-arm")] [Popen 7 []])))
     = [Popen 7 []] ++ [StdoutClose 7; Terminate 7; Kill 7].
Proof.
  exact (@qemu_failed_start "bin/test.elf" (Qemu.Make "lm3s6965evb" (Some 7))
           (MkOS 8 [Some (IOError "qemu-system-arm")] [Popen 7 []])
           (IOError "qemu-system-arm") [] eq_refl).
Defined.

(** X12. A [flash] whose emulator starts replaces the process:
    [device()] then gives the process started last, which was started
    after the earlier one was killed, for the platform's machine and with
    the binary as its kernel. *)
Theorem qemu_flash_then_device (binary_path : string) (q : Qemu.t) (os : OS) :
  hd_error (popen_errors os) = None \/ hd_error (popen_errors os) = Some None ->
  fst (fst (Qemu.flash None binary_path q os)) = None
  /\ Qemu.device (snd (fst (Qemu.flash None binary_path q os))) = inl (next_pid os)
  /\ os_calls (snd (Qemu.flash None binary_path q os))
     = os_calls os
         ++ match Qemu.wrapper q with
            | Some old => [StdoutClose old; Terminate old; Kill old]
            | None => []
            end
         ++ [Popen (next_pid os)
               ["qemu-system-arm"; "-cpu"; "cortex-m4"; "-M"; Qemu.machine q;
                "-nographic"; "-kernel"; binary_path]%string].
Proof.
  intros He. unfold Qemu.flash, Qemu.drop_wrapper, Qemu.device, popen, Qemu.command.
  destruct (Qemu.wrapper q) as [old|] eqn:Ew; simpl;
    destruct (popen_errors os) as [|[e|] errors]; simpl in *;
    try (destruct He as [He|He]; discriminate He);
    rewrite <- ?app_assoc; auto.
Qed.

Lemma qemu_flash_then_device_witness :
  Qemu.device (snd (fst (Qemu.flash None "bin/test.elf" (Qemu.init "lm3s6965evb")
                           (MkOS 0 [] []))))
  = inl 0.
Proof.
  exact (proj1 (proj2 (@qemu_flash_then_device "bin/test.elf"
                         (Qemu.init "lm3s6965evb") (MkOS 0 [] []) (or_introl eq_refl)))).
Defined.

(** X13. [__exit__] twice is [__exit__] once: the second call finds no
    wrapper and does nothing to any process. *)
Theorem qemu_exit_idempotent (q : Qemu.t) (os : OS) :
  Qemu.exit (fst (Qemu.exit q os)) (snd (Qemu.exit q os)) = Qemu.exit q os
  /\ Qemu.device (fst (Qemu.exit q os)) = inr (Exception "No process started yet").
Proof.
  unfold Qemu.exit, Qemu.drop_wrapper, Qemu.device.
  destruct (Qemu.wrapper q) as [pid|] eqn:E; simpl; [auto|].
  rewrite E. now destruct q.
Qed.

(** ** The scope reader's stop marker *)

(** [#\n] at the head of a text. *)
Lemma hash_nl_here (u : chars) :
  Re.match_here Ascii.eqb false
    [Re.Item (Re.Lit "#"%char) 1 false; Re.Item (Re.Lit NL) 1 false] u
  = match u with
    | a :: b :: _ => if (Ascii.eqb a "#" && Ascii.eqb b NL)%bool then Some 2 else None
    | _ => None
    end.
Proof.
  rewrite match_here_cons. cbn [Re.it_cls Re.it_min Re.it_open].
  destruct u as [|a u]; [reflexivity|]. cbn [Re.span Re.accepts].
  destruct (Ascii.eqb a "#"); [|now destruct u].
  cbn [Nat.ltb Nat.leb skipn andb]. rewrite match_here_cons.
  cbn [Re.it_cls Re.it_min Re.it_open].
  destruct u as [|b u]; [reflexivity|]. cbn [Re.span Re.accepts].
  destruct (Ascii.eqb b NL); reflexivity.
Qed.

Lemma end_pat_unfold (data : chars) :
  Re.re_match Ascii.eqb ChipWhisperer.end_pat data
  = Re.backtrack
      (fun j =>
         option_map (Nat.add j)
           (Re.match_here Ascii.eqb false
              [Re.Item (Re.Lit "#"%char) 1 false; Re.Item (Re.Lit NL) 1 false]
              (skipn j data)))
      0 (List.length data).
Proof.
  unfold Re.re_match, ChipWhisperer.end_pat. rewrite match_here_cons.
  cbn [Re.it_cls Re.it_min Re.it_open]. rewrite span_dot.
  destruct (Nat.ltb_spec (List.length data) 0) as [?|_]; [lia|].
  now rewrite Nat.sub_0_r.
Qed.

(** A marker found at [j] is a marker in the text. *)
Lemma hash_nl_at (data : chars) (j : nat) :
  Re.match_here Ascii.eqb false
    [Re.Item (Re.Lit "#"%char) 1 false; Re.Item (Re.Lit NL) 1 false]
    (skipn j data) <> None ->
  exists w, data = firstn j data ++ hash_nl ++ w.
Proof.
  rewrite hash_nl_here. intros H.
  destruct (skipn j data) as [|a [|b w]] eqn:E; try (now elim H).
  destruct (Ascii.eqb a "#") eqn:Ea; [|now elim H].
  destruct (Ascii.eqb b NL) eqn:Eb; [|now elim H].
  apply Ascii.eqb_eq in Ea, Eb. subst. exists w.
  rewrite <- (firstn_skipn j data) at 1. now rewrite E.
Qed.

Lemma end_pat_found (data : chars) :
  Re.re_match Ascii.eqb ChipWhisperer.end_pat data = None -> hash_nl_free data.
Proof.
  rewrite end_pat_unfold. intros H a b ->.
  revert H. apply backtrack_found with (j := List.length a).
  - rewrite length_app. lia.
  - rewrite skipn_app, skipn_all, Nat.sub_diag. cbn [app skipn].
    rewrite hash_nl_here. discriminate.
Qed.

Lemma end_pat_none (data : chars) :
  hash_nl_free data -> Re.re_match Ascii.eqb ChipWhisperer.end_pat data = None.
Proof.
  rewrite end_pat_unfold. intros H. apply backtrack_none. intros j _.
  destruct (Re.match_here _ _ _ (skipn j data)) eqn:E; [|reflexivity].
  exfalso. destruct (@hash_nl_at data j) as [w Hw]; [congruence|].
  exact (H _ _ Hw).
Qed.

Lemma end_pat_last (pre post : chars) :
  hash_nl_free post ->
  Re.re_match Ascii.eqb ChipWhisperer.end_pat (pre ++ hash_nl ++ post)
  = Some (List.length pre + 2).
Proof.
  rewrite end_pat_unfold. intros Hpost.
  apply backtrack_first with (j := List.length pre).
  - rewrite length_app. lia.
  - rewrite skipn_app, skipn_all, Nat.sub_diag. cbn [app skipn].
    rewrite hash_nl_here. cbn. reflexivity.
  - intros j' Hj'.
    destruct (Re.match_here _ _ _ (skipn j' (pre ++ hash_nl ++ post))) eqn:E;
      [|reflexivity].
    exfalso. rewrite skipn_app, skipn_all2 in E by lia. cbn [app] in E.
    destruct (j' - List.length pre) as [|[|k]] eqn:Ek; [lia| |].
    + cbn [hash_nl app skipn] in E. rewrite hash_nl_here in E.
      destruct post; discriminate E.
    + cbn [hash_nl app skipn] in E.
      destruct (@hash_nl_at post k) as [w Hw]; [congruence|].
      exact (Hpost _ _ Hw).
Qed.

(** X14. [end_pat.match(data)] finds nothing exactly when the text
    holds no [#] followed at once by a newline, and otherwise ends at the
    last such pair: a [#] with anything else behind it, or earlier pairs,
    do not decide where the match ends. *)
Theorem end_pat_match (data : chars) :
  (Re.re_match Ascii.eqb ChipWhisperer.end_pat data = None <-> hash_nl_free data)
  /\ (forall pre post,
         data = pre ++ hash_nl ++ post ->
         hash_nl_free post ->
         Re.re_match Ascii.eqb ChipWhisperer.end_pat data
         = Some (List.length pre + 2)).
Proof.
  split; [split; [apply end_pat_found|apply end_pat_none]|].
  intros pre post -> Hpost. now apply end_pat_last.
Qed.

(** ** What the scope reader returns *)

(** The start pattern ends its match behind the last start line. *)
Lemma chipwhisperer_start_end (boot : chars) :
  Re.re_match Ascii.eqb ChipWhisperer.start_pat (boot ++ chars_of "====" ++ [NL])
  = Some (List.length (boot ++ chars_of "====" ++ [NL])).
Proof.
  unfold Re.re_match, ChipWhisperer.start_pat.
  rewrite match_here_cons. cbn [Re.it_cls Re.it_min Re.it_open].
  rewrite span_dot, Nat.sub_0_r.
  destruct (Nat.ltb_spec (List.length (boot ++ chars_of "====" ++ [NL])) 0)
    as [?|_]; [lia|].
  rewrite length_app. cbn [chars_of list_ascii_of_string app List.length].
  apply backtrack_first with (j := List.length boot).
  - lia.
  - rewrite skipn_app, skipn_all, Nat.sub_diag. cbn [app skipn].
    vm_compute option_map at 1.
    cbn. f_equal.
  - intros j' Hj'. rewrite skipn_app, skipn_all2 by lia. cbn [app].
    destruct (j' - List.length boot) as [|[|[|[|[|[|k]]]]]] eqn:Ek;
      try lia; reflexivity.
Qed.

(** The loop polls on while the text does not match, and stops with the
    poll that makes it match. *)
Lemma await_match_collect (pat : Re.pattern ascii) (ps : list chars) :
  forall (data p : chars) (rest : Target) (e fuel : nat),
    (forall n, 0 < n <= List.length ps ->
               Re.re_match Ascii.eqb pat (data ++ List.concat (firstn n ps)) = None) ->
    Re.re_match Ascii.eqb pat (data ++ List.concat ps ++ p) = Some e ->
    List.length ps < fuel ->
    ChipWhisperer.await_match pat fuel data (ps ++ p :: rest)
    = Some (e, data ++ List.concat ps ++ p, rest).
Proof.
  induction ps as [|q ps IH]; intros data p rest e fuel Hn He Hf;
    (destruct fuel as [|fuel]; [simpl in Hf; lia|]);
    cbn [app ChipWhisperer.await_match target_read List.concat] in *.
  - now rewrite He.
  - assert (H1 : Re.re_match Ascii.eqb pat (data ++ q) = None).
    { specialize (Hn 1). cbn [firstn List.concat] in Hn. rewrite app_nil_r in Hn.
      apply Hn. simpl. lia. }
    rewrite H1, (IH (data ++ q) p rest e fuel).
    + now rewrite <- !app_assoc.
    + intros n Hlen. specialize (Hn (S n)). cbn [firstn List.concat] in Hn.
      rewrite <- app_assoc. apply Hn. simpl. lia.
    + rewrite <- !app_assoc in He |- *. exact He.
    + simpl in Hf. lia.
Qed.

Lemma await_match_step (pat : Re.pattern ascii) (fuel : nat) (data chunk : chars)
  (t : Target) :
  ChipWhisperer.await_match pat (S fuel) data (chunk :: t)
  = match Re.re_match Ascii.eqb pat (data ++ chunk) with
    | Some e => Some (e, data ++ chunk, t)
    | None => ChipWhisperer.await_match pat fuel (data ++ chunk) t
    end.
Proof. reflexivity. Qed.

Lemma firstn_prefix (x z : chars) : firstn (List.length x) (x ++ z) = x.
Proof.
  rewrite firstn_app, firstn_all, Nat.sub_diag. simpl. apply app_nil_r.
Qed.

Lemma hash_nl_free_prefix (a b : chars) : hash_nl_free (a ++ b) -> hash_nl_free a.
Proof.
  intros H x y ->. apply (H x (y ++ b)). now rewrite <- !app_assoc.
Qed.

(** The first loop gathers the polls up to the one that brings [=]. *)
Lemma await_equal_collect (noise : list chars) :
  forall (data head : chars) (rest : Target) (fuel : nat),
    ~ In "="%char data ->
    (forall c, In c noise -> ~ In "="%char c) ->
    In "="%char head ->
    List.length noise < fuel ->
    ChipWhisperer.await_equal fuel data (noise ++ head :: rest)
    = Some (data ++ List.concat noise ++ head, rest).
Proof.
  induction noise as [|c noise IH]; intros data head rest fuel Hd Hn Hh Hf;
    (destruct fuel as [|fuel]; [simpl in Hf; lia|]);
    cbn [app ChipWhisperer.await_equal target_read List.concat];
    rewrite (no_equal_sign data Hd); cbn [negb].
  - apply await_equal_done, existsb_exists. exists "="%char.
    split; [apply in_or_app; now right|reflexivity].
  - rewrite (IH (data ++ c) head rest fuel).
    + now rewrite <- !app_assoc.
    + intros H. apply in_app_or in H. destruct H as [H|H]; [tauto|].
      revert H. apply Hn. now left.
    + intros c' Hc'. apply Hn. now right.
    + exact Hh.
    + simpl in Hf. lia.
Qed.

(** After polls without [=], the poll with the first [=] and the poll
    that completes a start line at its end, the run gathers polls up
    to the first that brings [#] and a newline, and cuts behind the
    last such pair. *)
Lemma chipwhisperer_run_collects (fuel : nat) (noise : list chars)
  (head next : chars) (polls : list chars) (last : chars) (rest : Target)
  (boot body post : chars) :
  (forall c, In c noise -> ~ In "="%char c) ->
  In "="%char head ->
  (List.concat noise ++ head) ++ next = boot ++ chars_of "====" ++ [NL] ->
  (polls <> [] ->
   hash_nl_free ((boot ++ chars_of "====" ++ [NL]) ++ List.concat polls)) ->
  List.concat polls ++ last = body ++ hash_nl ++ post ->
  hash_nl_free post ->
  List.length noise < fuel ->
  List.length polls < fuel ->
  ChipWhisperer.run fuel None (noise ++ head :: next :: polls ++ last :: rest)
  = Returned (boot ++ chars_of "====" ++ [NL] ++ body).
Proof.
  intros Hn Hh Hs Hfree Hl Hpost Hfn Hf.
  replace (boot ++ chars_of "====" ++ [NL] ++ body)
    with ((boot ++ chars_of "====" ++ [NL]) ++ body)
    by (now rewrite <- !app_assoc).
  pose proof (chipwhisperer_start_end boot) as HD.
  set (D := boot ++ chars_of "====" ++ [NL]) in *. clearbody D.
  unfold ChipWhisperer.run.
  rewrite (@await_equal_collect noise [] head _ fuel)
    by (assumption || intros []).
  cbn [app]. destruct fuel as [|fuel]; [lia|].
  rewrite await_match_step, Hs.
  replace (Re.re_match Ascii.eqb ChipWhisperer.start_pat D)
    with (Some (List.length D)) by (symmetry; exact HD).
  rewrite firstn_all.
  rewrite (@await_match_collect ChipWhisperer.end_pat polls D last rest
             (List.length (D ++ body) + 2) (S fuel)).
  - f_equal. rewrite Nat.add_sub, Hl, app_assoc. apply firstn_prefix.
  - intros n Hlen. apply end_pat_none.
    apply hash_nl_free_prefix with (b := List.concat (skipn n polls)).
    rewrite <- app_assoc, <- concat_app, firstn_skipn.
    apply Hfree. intros ->. simpl in Hlen. lia.
  - rewrite Hl, app_assoc. now apply end_pat_last.
  - lia.
Qed.


(** X15. What [ChipWhisperer.run] returns when, after polls without
    [=], a poll brings the first [=], the next poll completes a start
    line at its end, and a later poll brings the first [#] followed by a
    newline: everything read up to the start line, the start line
    itself, and the text up to the last [#] with a newline behind it in
    that poll; what the poll holds behind that marker is dropped. *)
Theorem chipwhisperer_transcript (fuel : nat) (noise : list chars)
  (head next : chars) (polls : list chars) (last : chars) (rest : Target)
  (boot body post : chars) :
  (forall c, In c noise -> ~ In "="%char c) ->
  In "="%char head ->
  (List.concat noise ++ head) ++ next = boot ++ chars_of "====" ++ [NL] ->
  (polls <> [] ->
   hash_nl_free ((boot ++ chars_of "====" ++ [NL]) ++ List.concat polls)) ->
  List.concat polls ++ last = body ++ hash_nl ++ post ->
  hash_nl_free post ->
  List.length noise < fuel ->
  List.length polls < fuel ->
  ChipWhisperer.run fuel None (noise ++ head :: next :: polls ++ last :: rest)
  = Returned (boot ++ chars_of "====" ++ [NL] ++ body).
Proof.
  intros Hn Hh Hs Hfree Hl Hpost Hfn Hf.
  now apply chipwhisperer_run_collects with (post := post).
Qed.

(** Two polls of boot text, the first [=], the rest of the start line,
    two lines of output in two polls, the second with the stop marker
    and more: the transcript opens with the boot text and the start
    line. *)
Lemma chipwhisperer_transcript_witness :
  ChipWhisperer.run 3 None
    ([chars_of "bo"; chars_of "ot"]
       ++ chars_of "=" :: (chars_of "====" ++ [NL])
       :: [chars_of "a#b" ++ [NL]]
       ++ (chars_of "c" ++ [NL] ++ chars_of "#" ++ [NL] ++ chars_of "late")
       :: [])
  = Returned (chars_of "boot=" ++ chars_of "====" ++ [NL]
                ++ (chars_of "a#b" ++ [NL] ++ chars_of "c" ++ [NL])).
Proof.
  apply (@chipwhisperer_transcript 3 [chars_of "bo"; chars_of "ot"]
           (chars_of "=") (chars_of "====" ++ [NL])
           [chars_of "a#b" ++ [NL]]
           (chars_of "c" ++ [NL] ++ chars_of "#" ++ [NL] ++ chars_of "late")
           [] (chars_of "boot=") (chars_of "a#b" ++ [NL] ++ chars_of "c" ++ [NL])
           (chars_of "late")).
  - simpl. intros c [<-|[<-|[]]]; simpl; intuition discriminate.
  - simpl. tauto.
  - reflexivity.
  - intros _. apply end_pat_found. vm_compute. reflexivity.
  - reflexivity.
  - apply end_pat_found. vm_compute. reflexivity.
  - simpl. lia.
  - simpl. lia.
Defined.

(** ** The first check of the byte reader *)

(** X16. [SerialCommsPlatform.run] raises "Timout waiting for start"
    exactly when the first thing on the line after the reset is not the
    byte [=]: a timeout, or any other byte, later [=] or not. *)
Theorem start_timeout_iff (fuel : nat) (residue : bytes)
  (line : list (option byte)) (cs : list call) :
  fst (run fuel (StLink.flash 0) (MkSerial residue line cs))
  = Raised (Exception "Timout waiting for start")
  <-> hd_error line <> Some (Some EQ).
Proof.
  change (StLink.flash 0) with (@None exn).
  unfold run, reset_input_buffer. cbn [incoming calls].
  rewrite read_until_line.
  destruct line as [|[c|] line]; cbn [read_line hd_error].
  - cbn. split; [discriminate|reflexivity].
  - destruct (Byte.eqb c EQ) eqn:E.
    + apply byte_eqb_true in E. subst c. cbn [fst snd bytes_eqb].
      rewrite byte_eqb_refl. cbn [andb negb]. rewrite read_until_line.
      split; [|intros H; now elim H].
      intros H _. revert H.
      destruct (negb _); [discriminate|].
      destruct (streaming fuel [] _) as [[out|] d]; discriminate.
    + assert (Hc : c <> EQ) by (intros ->; now rewrite byte_eqb_refl in E).
      destruct (read_line EQ line) as [got rest]. cbn [fst snd bytes_eqb].
      rewrite E. cbn [andb negb fst].
      split; [intros _ [= ->]; now apply Hc|reflexivity].
  - cbn. split; [discriminate|reflexivity].
Qed.

(** ** Both readers, side by side *)






